(** * Emailit: the API gateway (server/server.js) and the log viewer
      (src/pages/Analytics.tsx), embedded and verified.

    The gateway is an Express application: every route handler reads and
    rewrites whole JSON files and, for three routes, calls the Plunk HTTP API.
    Handlers are embedded as computations in a state-and-exception monad over
    a [world] that holds the two files, the provider, and the trace of the
    effects performed so far.  The log viewer is a React component; its pure
    parts (statistics, export text, page-change guard) are embedded as
    functions of the component state. *)

From Stdlib Require Import Ascii.
From stdpp Require Import gmap strings list pretty.

Set Warnings "-register-all".
Open Scope string_scope.

(* ===================================================================== *)
(** * JavaScript values as the gateway sees them                          *)
(* ===================================================================== *)

Module Json.

(** What [JSON.parse] produces.  Numbers are restricted to the integers
    among the doubles (the gateway only tests them for zero, compares them
    and prints them); strings are byte strings, the UTF-8 text of the
    JavaScript string.  An object is the finite map of its own
    properties: the order of keys is not modelled.  [undefined] is not a
    JSON value: an expression that may be [undefined] has type
    [option value], with [None] for [undefined]. *)
Inductive value : Type :=
| VNull
| VBool (b : bool)
| VNum (n : Z)
| VStr (s : string)
| VArr (items : list value)
| VObj (props : gmap string value).

Abbreviation undefined := (@None value).

(** An [Error] object, with the two optional properties the gateway looks
    at: [code] (set by [fs]) and [response] (set by axios when the provider
    answered with a failure status). *)
Record AxiosResponse : Type := {
  status : Z;
  data : value
}.

Record js_error : Type := {
  message : string;
  code : option string;
  response : option AxiosResponse
}.

Definition TypeError (msg : string) : js_error :=
  {| message := msg; code := None; response := None |}.

(** The result of evaluating an expression that may throw. *)
Inductive outcome (A : Type) : Type :=
| Ok (a : A)
| Throw (e : js_error).
Arguments Ok {A} a.
Arguments Throw {A} e.

Definition obind {A B} (o : outcome A) (k : A → outcome B) : outcome B :=
  match o with
  | Ok a => k a
  | Throw e => Throw e
  end.

Global Instance outcome_ret : MRet outcome := @Ok.
Global Instance outcome_bind : MBind outcome := λ A B k o, obind o k.

(** ToBoolean. *)
Definition truthy (v : value) : bool :=
  match v with
  | VNull => false
  | VBool b => b
  | VNum n => negb (n =? 0)%Z
  | VStr s => negb (String.eqb s "")
  | VArr _ | VObj _ => true
  end.

Definition truthy_u (o : option value) : bool :=
  match o with
  | Some v => truthy v
  | None => false
  end.

(** [a === b].  Two objects (or arrays) are equal only when they are the
    same reference; the gateway only ever compares a value parsed from a
    file with a value parsed from the request, which never are. *)
Definition strict_eq (a b : value) : bool :=
  match a, b with
  | VNull, VNull => true
  | VBool x, VBool y => Bool.eqb x y
  | VNum x, VNum y => (x =? y)%Z
  | VStr x, VStr y => String.eqb x y
  | _, _ => false
  end.

Definition strict_eq_u (a b : option value) : bool :=
  match a, b with
  | Some x, Some y => strict_eq x y
  | None, None => true
  | _, _ => false
  end.

(** [v.k] for the property names the gateway reads ([id], [email],
    [secretKey]): reading from [null] throws, an object yields its own
    property, and every other value yields [undefined]. *)
Definition get_prop (v : value) (k : string) : outcome (option value) :=
  match v with
  | VNull =>
      Throw (TypeError ("Cannot read properties of null (reading '" ++ k ++ "')"))
  | VObj props => Ok (props !! k)
  | _ => Ok undefined
  end.

(** The own enumerable properties copied by object spread [{...v}]. *)
Fixpoint chars (s : string) : list value :=
  match s with
  | EmptyString => []
  | String c s' => VStr (String c EmptyString) :: chars s'
  end.

Definition indexed (l : list value) : gmap string value :=
  list_to_map (imap (λ (i : nat) x, (pretty i, x)) l).

Definition own_props (v : value) : gmap string value :=
  match v with
  | VObj props => props
  | VArr items => indexed items
  | VStr s => indexed (chars s)
  | _ => ∅
  end.

(** [Array.prototype.join] on elements already converted to strings. *)
Fixpoint join (sep : string) (l : list string) : string :=
  match l with
  | [] => ""
  | [x] => x
  | x :: rest => x ++ sep ++ join sep rest
  end.

(** [Array.prototype.map]-like traversal with a callback that may throw:
    from left to right, the first exception ends it. *)
Definition each {A B : Type} (f : A → outcome B) : list A → outcome (list B) :=
  fix go (l : list A) : outcome (list B) :=
    match l with
    | [] => Ok []
    | x :: rest => obind (f x) (λ y, obind (go rest) (λ ys, Ok (y :: ys)))
    end.

(** ToString, as used by a template literal.  The digits of a number are
    the engine's ([Number::toString] prints the shortest decimal that reads
    back as the same double, in exponent form from 1e21 on): they are the
    parameter [number_text].  An object is converted through its [toString]
    property: the inherited method gives "[object Object]"; an own property
    of that name is never callable in a value read from JSON, and then
    [valueOf] gives back the object itself or is not callable either, so
    the conversion throws.  An array is converted by [join]: inside it,
    [null] prints as the empty string, and the first element whose
    conversion throws ends it. *)
Fixpoint to_string (number_text : Z → string) (v : value) : outcome string :=
  match v with
  | VNull => Ok "null"
  | VBool true => Ok "true"
  | VBool false => Ok "false"
  | VNum n => Ok (number_text n)
  | VStr s => Ok s
  | VArr items =>
      obind
        (each (λ x, match x with
                    | VNull => Ok ""
                    | _ => to_string number_text x
                    end) items)
        (λ strs, Ok (join "," strs))
  | VObj props =>
      match props !! "toString" with
      | Some _ => Throw (TypeError "Cannot convert object to primitive value")
      | None => Ok "[object Object]"
      end
  end.

Definition to_string_u (number_text : Z → string) (o : option value)
    : outcome string :=
  match o with
  | Some v => to_string number_text v
  | None => Ok "undefined"
  end.

(** How deep arrays are nested in a value. *)
Fixpoint depth (v : value) : nat :=
  match v with
  | VArr items => S (list_max (map depth items))
  | _ => 0%nat
  end.

(** [String.prototype.trim] strips white space and line terminators from
    both ends: TAB, LF, VT, FF, CR, SP, U+00A0, U+1680, U+2000 to U+200A,
    U+2028, U+2029, U+202F, U+205F, U+3000 and U+FEFF.  A string is the
    UTF-8 text of the JavaScript string, so each of these characters is
    the sequence of its bytes; in well-formed UTF-8 such a sequence at
    either end of a text is that character. *)
Definition utf8 (bytes : list nat) : list Ascii.ascii :=
  map Ascii.ascii_of_nat bytes.

Definition white_space : list (list Ascii.ascii) :=
  map utf8
    [ [9]; [10]; [11]; [12]; [13]; [32];
      [194; 160];
      [225; 154; 128];
      [226; 128; 128]; [226; 128; 129]; [226; 128; 130]; [226; 128; 131];
      [226; 128; 132]; [226; 128; 133]; [226; 128; 134]; [226; 128; 135];
      [226; 128; 136]; [226; 128; 137]; [226; 128; 138];
      [226; 128; 168]; [226; 128; 169];
      [226; 128; 175];
      [226; 129; 159];
      [227; 128; 128];
      [239; 187; 191] ]%nat.

(** [strip_prefix w s]: [s] without its prefix [w], when it has it. *)
Fixpoint strip_prefix (w s : list Ascii.ascii) : option (list Ascii.ascii) :=
  match w, s with
  | [], _ => Some s
  | c :: w', d :: s' => if Ascii.eqb c d then strip_prefix w' s' else None
  | _ :: _, [] => None
  end.

Fixpoint strip_any (table : list (list Ascii.ascii)) (s : list Ascii.ascii)
    : option (list Ascii.ascii) :=
  match table with
  | [] => None
  | w :: rest =>
      match strip_prefix w s with
      | Some s' => Some s'
      | None => strip_any rest s
      end
  end.

(** Strips characters of the table from the front for as long as there is
    one; every step takes at least one byte, so the length of the text is
    fuel enough. *)
Fixpoint strip_all (table : list (list Ascii.ascii)) (fuel : nat)
    (s : list Ascii.ascii) : list Ascii.ascii :=
  match fuel with
  | O => s
  | S fuel' =>
      match strip_any table s with
      | Some s' => strip_all table fuel' s'
      | None => s
      end
  end.

Definition trim_start (s : string) : string :=
  String.string_of_list_ascii
    (strip_all white_space (String.length s) (String.list_ascii_of_string s)).

Definition trim_end (s : string) : string :=
  String.string_of_list_ascii
    (reverse (strip_all (map reverse white_space) (String.length s)
                (reverse (String.list_ascii_of_string s)))).

Definition trim (s : string) : string := trim_end (trim_start s).

(** [a || b] where [b] is never [undefined]. *)
Definition or_else (a : option value) (b : value) : value :=
  match a with
  | Some v => if truthy v then v else b
  | None => b
  end.

(** An object literal [{ ..., k: e }] as it is serialised: a property
    whose value is [undefined] is dropped by [JSON.stringify]. *)
Definition with_prop (k : string) (e : option value)
    (props : gmap string value) : gmap string value :=
  match e with
  | Some v => <[k := v]> props
  | None => props
  end.

(** A receiver that must be an array for [accounts.method(...)] to run. *)
Definition as_array (name method : string) (v : value) : outcome (list value) :=
  match v with
  | VArr items => Ok items
  | VNull =>
      Throw (TypeError ("Cannot read properties of null (reading '" ++ method ++ "')"))
  | _ => Throw (TypeError (name ++ "." ++ method ++ " is not a function"))
  end.

(** [Array.prototype.find], [filter] and [map] with a callback that may
    throw; elements are visited from left to right and the first
    exception ends the traversal.  The callback of [array_map] threads the
    variables it closes over and assigns to. *)
Fixpoint array_find (p : value → outcome bool) (l : list value)
    : outcome (option value) :=
  match l with
  | [] => Ok undefined
  | x :: rest =>
      obind (p x) (λ b, if b then Ok (Some x) else array_find p rest)
  end.

Fixpoint array_filter (p : value → outcome bool) (l : list value)
    : outcome (list value) :=
  match l with
  | [] => Ok []
  | x :: rest =>
      obind (p x) (λ b,
      obind (array_filter p rest) (λ rest',
      Ok (if b then x :: rest' else rest')))
  end.

Fixpoint array_map {S : Type} (f : value → S → outcome (value * S))
    (l : list value) (s : S) : outcome (list value * S) :=
  match l with
  | [] => Ok ([], s)
  | x :: rest =>
      obind (f x s) (λ '(y, s1),
      obind (array_map f rest s1) (λ '(rest', s2),
      Ok (y :: rest', s2)))
  end.

End Json.

(* ===================================================================== *)
(** * The API gateway: server/server.js                                   *)
(* ===================================================================== *)

Module Gateway.
Import Json.

(** ** The world a handler runs in *)

Inductive path : Type := accountsFilePath | subscribersFilePath.

Global Instance path_eq_dec : EqDecision path.
Proof. solve_decision. Defined.

(** The text of a file, up to what [JSON.parse] makes of it: the empty
    text, a text that parses to [v], or a text that [JSON.parse] rejects
    with the given [SyntaxError]. *)
Inductive text : Type :=
| Blank
| Json (v : value)
| Garbled (e : js_error).

Inductive http_method : Type := GET | POST.

(** A call [axios.get(url, {headers})] or [axios.post(url, payload, {headers})]. *)
Record provider_request : Type := {
  method : http_method;
  url : string;
  payload : option value;
  headers : gmap string string
}.

Inductive event : Type :=
| WriteFile (p : path) (t : text)
| ProviderCall (r : provider_request)
| ConsoleError (label : string) (detail : value).

(** What a rejected [fs.writeFile] leaves behind.  The file is opened with
    the flag 'w', which truncates it: a write that fails before the file
    is open leaves it as it was, one that fails afterwards leaves it empty
    or cut short.  The gateway only writes the text of an array, so a text
    cut short lacks the closing bracket and [JSON.parse] rejects it, with
    the given [SyntaxError]. *)
Inductive damage : Type :=
| Untouched
| Emptied
| CutShort (e : js_error).

Record world : Type := {
  disk : path → outcome text;           (* what fs.readFile resolves or rejects with *)
  write_fault : path → option js_error; (* the error fs.writeFile rejects with, if any *)
  write_damage : path → damage;         (* what a rejected fs.writeFile leaves *)
  plunk : provider_request → outcome AxiosResponse;
  uuid : string;                        (* the next crypto.randomUUID() *)
  clock : string;                       (* new Date(), as JSON serialises it *)
  number_text : Z → string;             (* the engine's Number::toString *)
  trace : list event                    (* effects performed, oldest first *)
}.

Definition log (ev : event) (w : world) : world :=
  {| disk := disk w; write_fault := write_fault w;
     write_damage := write_damage w; plunk := plunk w;
     uuid := uuid w; clock := clock w; number_text := number_text w;
     trace := trace w ++ [ev] |}.

Definition store (p : path) (t : text) (w : world) : world :=
  {| disk := λ q, if decide (q = p) then Ok t else disk w q;
     write_fault := write_fault w; write_damage := write_damage w;
     plunk := plunk w; uuid := uuid w; clock := clock w;
     number_text := number_text w; trace := trace w |}.

Definition spoil (p : path) (d : damage) (w : world) : world :=
  match d with
  | Untouched => w
  | Emptied => store p Blank w
  | CutShort e => store p (Garbled e) w
  end.

(** ** The monad of handlers: state passing with exceptions *)

Definition M (A : Type) : Type := world → outcome A * world.

Definition ret {A} (a : A) : M A := λ w, (Ok a, w).

Definition bind {A B} (m : M A) (k : A → M B) : M B :=
  λ w, match m w with
       | (Ok a, w') => k a w'
       | (Throw e, w') => (Throw e, w')
       end.

Definition throw {A} (e : js_error) : M A := λ w, (Throw e, w).

Definition try_catch {A} (m : M A) (handler : js_error → M A) : M A :=
  λ w, match m w with
       | (Ok a, w') => (Ok a, w')
       | (Throw e, w') => handler e w'
       end.

Definition lift {A} (o : outcome A) : M A := λ w, (o, w).

Global Instance M_ret : MRet M := @ret.
Global Instance M_bind : MBind M := λ A B k m, bind m k.

(** ** Primitive effects *)

Definition readFile (p : path) : M text := λ w, (disk w p, w).

Definition writeFile (p : path) (t : text) : M unit :=
  λ w, let w1 := log (WriteFile p t) w in
       match write_fault w p with
       | Some e => (Throw e, spoil p (write_damage w p) w1)
       | None => (Ok tt, store p t w1)
       end.

Definition axios (r : provider_request) : M AxiosResponse :=
  λ w, (plunk w r, log (ProviderCall r) w).

Definition console_error (label : string) (detail : value) : M unit :=
  λ w, (Ok tt, log (ConsoleError label detail) w).

Definition randomUUID : M string := λ w, (Ok (uuid w), w).

Definition new_Date : M string := λ w, (Ok (clock w), w).

(** The conversion of [v] in a template literal [`...${v}`]. *)
Definition interpolate (v : option value) : M string :=
  λ w, (to_string_u (number_text w) v, w).

Definition JSON_parse (t : text) : outcome value :=
  match t with
  | Blank => Throw {| message := "Unexpected end of JSON input";
                      code := None; response := None |}
  | Json v => Ok v
  | Garbled e => Throw e
  end.

(** ** Helper functions (server.js, lines 17 to 32) *)

Definition is_ENOENT (error : js_error) : bool :=
  match code error with
  | Some c => String.eqb c "ENOENT"
  | None => false
  end.

Definition readJsonFile (filePath : path) : M value :=
  try_catch
    (data ← readFile filePath;
     match data with
     | Blank => ret (VArr [])
     | _ => lift (JSON_parse data)
     end)
    (λ error,
       if is_ENOENT error then
         (writeFile filePath (Json (VArr []));; ret (VArr []))
       else throw error).

Definition writeJsonFile (filePath : path) (data : value) : M unit :=
  writeFile filePath (Json data).

(** ** Responses *)

Record reply : Type := {
  res_status : Z;
  res_body : option value
}.

Definition json (st : Z) (body : value) : reply :=
  {| res_status := st; res_body := Some body |}.

Definition send (st : Z) : reply :=
  {| res_status := st; res_body := None |}.

Definition DB_Error : reply :=
  json 500 (VObj {[ "error" := VStr "DB Error" ]}).

(** [error.response?.status || 500] and [error.response?.data || error.message]. *)
Definition error_status (error : js_error) : Z :=
  match response error with
  | Some r => if (status r =? 0)%Z then 500 else status r
  | None => 500
  end.

Definition error_detail (error : js_error) : value :=
  or_else (data <$> response error) (VStr (message error)).

(** ** Account management (lines 35 to 72) *)

(* A handler takes [req.params.id], where the route has it, and [req.body].
   [bodyParser.json()] leaves in [req.body] the parsed JSON object, or [{}]
   when the request has none; the body is modelled by the map of its own
   properties, which is all that destructuring and spread see.  The one
   handler that uses the body as a value, POST /api/accounts, takes it as
   a [request_body]. *)

(** [req.body] itself: [bodyParser.json()] in its strict mode, the default,
    accepts a text that holds an object or an array. *)
Inductive request_body : Type :=
| ObjectBody (props : gmap string value)
| ArrayBody (items : list value).

Definition body_value (b : request_body) : value :=
  match b with
  | ObjectBody props => VObj props
  | ArrayBody items => VArr items
  end.

Definition get_accounts : M reply :=
  try_catch
    (accounts ← readJsonFile accountsFilePath;
     mret (json 200 accounts))
    (λ e, mret DB_Error).

Definition post_accounts (body : request_body) : M reply :=
  try_catch
    (accounts ← readJsonFile accountsFilePath;
     items ← lift (as_array "accounts" "push" accounts);
     writeJsonFile accountsFilePath (VArr (items ++ [body_value body]));;
     mret (json 201 (body_value body)))
    (λ e, mret DB_Error).

(** The callback of [accounts.map] in the PUT handler; [updated] is the
    variable of the enclosing scope that the callback assigns to. *)
Definition merge_account (id : string) (body : gmap string value)
    (acc : value) (updated : value) : outcome (value * value) :=
  acc_id ← get_prop acc "id";
  if strict_eq_u acc_id (Some (VStr id)) then
    let updated := VObj (body ∪ own_props acc) in
    Ok (updated, updated)
  else Ok (acc, updated).

Definition put_account (id : string) (body : gmap string value) : M reply :=
  try_catch
    (accounts ← readJsonFile accountsFilePath;
     items ← lift (as_array "accounts" "map" accounts);
     '(accounts, updated) ← lift (array_map (merge_account id body) items VNull);
     writeJsonFile accountsFilePath (VArr accounts);;
     mret (json 200 (or_else (Some updated) (VObj ∅))))
    (λ e, mret DB_Error).

Definition other_id (id : string) (acc : value) : outcome bool :=
  acc_id ← get_prop acc "id";
  Ok (negb (strict_eq_u acc_id (Some (VStr id)))).

Definition delete_account (id : string) : M reply :=
  try_catch
    (accounts ← readJsonFile accountsFilePath;
     items ← lift (as_array "accounts" "filter" accounts);
     accounts ← lift (array_filter (other_id id) items);
     writeJsonFile accountsFilePath (VArr accounts);;
     mret (send 204))
    (λ e, mret DB_Error).

(** ** Auth check (lines 75 to 94) *)

Definition Authentication_Failed : reply :=
  json 401 (VObj {[ "success" := VBool false;
                    "message" := VStr "Authentication Failed";
                    "details" := VStr "Invalid Plunk Secret Key" ]}).

Definition check_status (body : gmap string value) : M reply :=
  let secretKey := body !! "secretKey" in
  if negb (truthy_u secretKey) then
    mret (json 400 (VObj {[ "message" := VStr "Missing Secret Key" ]}))
  else
    try_catch
      (key ← interpolate secretKey;
       response ← axios
         {| method := GET;
            url := "https://api.useplunk.com/v1/contacts?limit=1";
            payload := None;
            headers := {[ "Authorization" := "Bearer " ++ key ]} |};
       mret (json 200 (VObj {[ "success" := VBool true;
                               "message" := VStr "Connected to Plunk.";
                               "data" := data response ]})))
      (λ error,
         console_error "Auth Error:" (error_detail error);;
         mret Authentication_Failed).

(** ** Subscriber management (lines 97 to 111) *)

Definition has_email (email : option value) (s : value) : outcome bool :=
  s_email ← get_prop s "email";
  Ok (strict_eq_u s_email email).

Definition post_subscribers (body : gmap string value) : M reply :=
  let email := body !! "email" in
  if negb (truthy_u email) then
    mret (json 400 (VObj {[ "error" := VStr "Email required" ]}))
  else
    try_catch
      (subscribers ← readJsonFile subscribersFilePath;
       items ← lift (as_array "subscribers" "find" subscribers);
       found ← lift (array_find (has_email email) items);
       if truthy_u found then
         mret (json 409 (VObj {[ "message" := VStr "Already subscribed" ]}))
       else
         id ← randomUUID;
         joinedAt ← new_Date;
         let newSub :=
           VObj (with_prop "email" email
                   {[ "id" := VStr id; "joinedAt" := VStr joinedAt ]}) in
         writeJsonFile subscribersFilePath (VArr (items ++ [newSub]));;
         mret (json 200 (VObj {[ "success" := VBool true;
                                 "subscriber" := newSub ]})))
      (λ e, mret DB_Error).

(** ** Send email and track event (lines 114 to 194) *)

Definition has_id (accountId : option value) (a : value) : outcome bool :=
  a_id ← get_prop a "id";
  Ok (strict_eq_u a_id accountId).

Definition Account_not_found : reply :=
  json 404 (VObj {[ "error" := VStr "Account not found" ]}).

Definition bearer_headers (key : string) : gmap string string :=
  {[ "Authorization" := "Bearer " ++ key;
     "Content-Type" := "application/json" ]}.

(** [from.trim()] for a truthy [from]: only strings have the method. *)
Definition call_trim (from : value) : outcome string :=
  match from with
  | VStr s => Ok (trim s)
  | VNull => Throw (TypeError "Cannot read properties of null (reading 'trim')")
  | _ => Throw (TypeError "from.trim is not a function")
  end.

Definition send_payload (to subject content from : option value)
    : outcome (gmap string value) :=
  let payload :=
    with_prop "to" to
      (with_prop "subject" subject
         (with_prop "body" content {[ "subscribed" := VBool true ]})) in
  match from with
  | Some f =>
      if truthy f then
        trimmed ← call_trim f;
        if negb (String.eqb trimmed "") then Ok (<["from" := VStr trimmed]> payload)
        else Ok payload
      else Ok payload
  | None => Ok payload
  end.

Definition send_email (body : gmap string value) : M reply :=
  let accountId := body !! "accountId" in
  let to := body !! "to" in
  let subject := body !! "subject" in
  let content := body !! "content" in
  let from := body !! "from" in
  if negb (truthy_u accountId) || negb (truthy_u to)
     || negb (truthy_u subject) || negb (truthy_u content) then
    mret (json 400 (VObj {[ "error" := VStr "Missing parameters" ]}))
  else
    try_catch
      (accounts ← readJsonFile accountsFilePath;
       items ← lift (as_array "accounts" "find" accounts);
       account ← lift (array_find (has_id accountId) items);
       match account with
       | Some account =>
           if negb (truthy account) then mret Account_not_found
           else
             payload ← lift (send_payload to subject content from);
             secretKey ← lift (get_prop account "secretKey");
             key ← interpolate secretKey;
             response ← axios
               {| method := POST;
                  url := "https://api.useplunk.com/v1/send";
                  payload := Some (VObj payload);
                  headers := bearer_headers key |};
             mret (json 200 (data response))
       | None => mret Account_not_found
       end)
      (λ error,
         console_error "Plunk Error:" (error_detail error);;
         mret (json (error_status error)
                 (VObj {[ "error" := VStr "Failed to send email";
                          "details" := error_detail error ]}))).

Definition track_payload (event email data subscribed : option value)
    : gmap string value :=
  with_prop "event" event
    (with_prop "email" email
       {[ "subscribed" := default (VBool true) subscribed;
          "data" := or_else data (VObj ∅) ]}).

Definition track_event (body : gmap string value) : M reply :=
  let accountId := body !! "accountId" in
  let event := body !! "event" in
  let email := body !! "email" in
  let data_ := body !! "data" in
  let subscribed := body !! "subscribed" in
  if negb (truthy_u accountId) || negb (truthy_u event)
     || negb (truthy_u email) then
    mret (json 400 (VObj {[ "error" :=
              VStr "Missing parameters (accountId, event, email)" ]}))
  else
    try_catch
      (accounts ← readJsonFile accountsFilePath;
       items ← lift (as_array "accounts" "find" accounts);
       account ← lift (array_find (has_id accountId) items);
       match account with
       | Some account =>
           if negb (truthy account) then mret Account_not_found
           else
             secretKey ← lift (get_prop account "secretKey");
             key ← interpolate secretKey;
             response ← axios
               {| method := POST;
                  url := "https://api.useplunk.com/v1/track";
                  payload := Some (VObj (track_payload event email data_ subscribed));
                  headers := bearer_headers key |};
             mret (json 200 (data response))
       | None => mret Account_not_found
       end)
      (λ error,
         console_error "Plunk Track Error:" (error_detail error);;
         mret (json (error_status error)
                 (VObj {[ "error" := VStr "Failed to track event";
                          "details" := error_detail error ]}))).

(** ** Observations used in the statements below *)

(** The list a file stands for: what [readJsonFile] returns when neither
    the read nor the parse fails with something other than a missing file.
    [None] when the file is unreadable, is not JSON, or does not hold an
    array. *)
Definition stored (w : world) (p : path) : option (list value) :=
  match disk w p with
  | Ok Blank => Some []
  | Ok (Json (VArr items)) => Some items
  | Ok _ => None
  | Throw e => if is_ENOENT e then Some [] else None
  end.

(** The world [readJsonFile] leaves behind when it succeeds: a file that
    could not be read was missing and now holds an empty array. *)
Definition after_read (p : path) (w : world) : world :=
  match disk w p with
  | Throw _ => store p (Json (VArr [])) (log (WriteFile p (Json (VArr []))) w)
  | Ok _ => w
  end.

(** The events a computation adds to the trace. *)
Definition performed {A} (m : M A) (w : world) : list event :=
  drop (length (trace w)) (trace (m w).2).

(** A computation only adds to the trace, so [performed] is what it says. *)
Definition extends {A} (m : M A) : Prop :=
  ∀ w, ∃ evs, trace (m w).2 = (trace w ++ evs)%list.

(** A handler answers: no exception escapes it. *)
Definition settles (m : M reply) : Prop :=
  ∀ w, ∃ r, (m w).1 = Ok r.

(** A handler turns the request down: it answers 400 and returns the world
    as it was, having done nothing. *)
Definition rejects (m : M reply) (w : world) : Prop :=
  ∃ r, m w = (Ok r, w) ∧ res_status r = 400%Z ∧ performed m w = [].

Definition is_effect (ev : event) : bool :=
  match ev with
  | WriteFile _ _ | ProviderCall _ => true
  | ConsoleError _ _ => false
  end.

(** The [id] and [email] of a stored entry, as a property read that does
    not throw sees them. *)
Definition prop_of (k : string) (entry : value) : option value :=
  match entry with
  | VObj props => props !! k
  | _ => undefined
  end.

Definition account_has_id (id : string) (acc : value) : bool :=
  strict_eq_u (prop_of "id" acc) (Some (VStr id)).

Definition subscriber_has_email (email : value) (s : value) : bool :=
  strict_eq_u (prop_of "email" s) (Some email).

Definition not_null (v : value) : Prop := v ≠ VNull.

(** What the gateway itself leaves in its files: a file is missing, empty,
    or holds an array; the accounts are not [null] and every subscriber is
    not [null] and has an email that counts as true. *)
Definition sound_subscriber (s : value) : Prop :=
  not_null s ∧ truthy_u (prop_of "email" s) = true.

Definition sound_text (p : path) (t : text) : Prop :=
  match t, p with
  | Blank, _ => True
  | Json (VArr l), accountsFilePath => Forall not_null l
  | Json (VArr l), subscribersFilePath => Forall sound_subscriber l
  | _, _ => False
  end.

Definition sound_list (p : path) (v : value) : Prop := sound_text p (Json v).

Definition sound_disk (w : world) : Prop :=
  ∀ p, match disk w p with
       | Ok t => sound_text p t
       | Throw e => is_ENOENT e = true
       end.

(** No rejected write leaves a text cut short. *)
Definition whole_writes (w : world) : Prop :=
  ∀ p e, write_damage w p ≠ CutShort e.

(** [m] keeps a sound disk sound, as long as no rejected write leaves a
    text cut short, and its result, if any, satisfies [Q]. *)
Definition keeps_sound {A} (m : M A) (Q : A → Prop) : Prop :=
  ∀ w, whole_writes w → sound_disk w →
    (whole_writes (m w).2 ∧ sound_disk (m w).2)
    ∧ match (m w).1 with Ok a => Q a | Throw _ => True end.

(** The [from] that reaches the provider: the trimmed text of a string
    that is not blank, nothing otherwise. *)
Definition forwarded_from (from : option value) : option value :=
  match from with
  | Some (VStr s) => if String.eqb (trim s) "" then None else Some (VStr (trim s))
  | _ => None
  end.

(** The payload of the send call as the specification words it: the
    fields of the request, with [content] under the name [body], and
    [from] when the request gives one. *)
Definition renamed_fields (body : gmap string value) : gmap string value :=
  with_prop "to" (body !! "to")
    (with_prop "subject" (body !! "subject")
       (with_prop "body" (body !! "content")
          (with_prop "from" (body !! "from") ∅))).

(** "Request fields override, unmentioned fields survive". *)
Definition shallow_merge (old patch merged : gmap string value) : Prop :=
  ∀ k, merged !! k = match patch !! k with
                     | Some v => Some v
                     | None => old !! k
                     end.

(** A reply that relays the failure [e] of a provider call: the
    provider's status code and its error body when the provider supplied
    them, status 500 otherwise. *)
Definition relays (e : js_error) (r : reply) : Prop :=
  match response e with
  | Some answer =>
      (status answer ≠ 0%Z → res_status r = status answer)
      ∧ (truthy (data answer) = true →
         ∃ props, res_body r = Some (VObj props)
                  ∧ props !! "details" = Some (data answer))
  | None => res_status r = 500%Z
  end.

(** ** Further observations *)

(** The world after [readJsonFile] and then [writeJsonFile] of the list [l]
    have both succeeded on the file [p]. *)
Definition rewritten (p : path) (l : list value) (w : world) : world :=
  store p (Json (VArr l)) (log (WriteFile p (Json (VArr l))) (after_read p w)).

(** The provider calls and the file writes among some events. *)
Definition calls (evs : list event) : list provider_request :=
  omap (λ ev, match ev with ProviderCall r => Some r | _ => None end) evs.

Definition writes (evs : list event) : list (path * text) :=
  omap (λ ev, match ev with WriteFile p t => Some (p, t) | _ => None end) evs.

(** The accounts a PUT replaces, and what it replaces them with. *)
Definition put_entry (id : string) (body : gmap string value) (acc : value) : value :=
  if account_has_id id acc then VObj (body ∪ own_props acc) else acc.

(** A value that [===] compares by content. *)
Definition scalar (v : value) : bool :=
  match v with
  | VArr _ | VObj _ => false
  | _ => true
  end.


(** A text with something in it and no white space at either end: none
    of the characters that [trim] strips begins it or ends it. *)
Definition tidy (s : string) : Prop :=
  s ≠ ""
  ∧ ∀ c, c ∈ white_space →
      ¬ c `prefix_of` String.list_ascii_of_string s
      ∧ ¬ c `suffix_of` String.list_ascii_of_string s.

(** The subscriber that POST /api/subscribers builds in the world [w]. *)
Definition new_subscriber (email : value) (w : world) : value :=
  VObj (<["email" := email]>
          {[ "id" := VStr (uuid w); "joinedAt" := VStr (clock w) ]}).

(** A relation between the world before and the world after that every step
    of a computation respects. *)
Definition respects (R : world → world → Prop) {A} (m : M A) : Prop :=
  ∀ w, R w (m w).2.

(** The file [p] is as it was. *)
Definition same_file (p : path) (w w' : world) : Prop := disk w' p = disk w p.

(** The provider has not been called since. *)
Definition no_call_since (w w' : world) : Prop :=
  ∃ evs, trace w' = (trace w ++ evs)%list ∧ calls evs = [].

End Gateway.

(* ===================================================================== *)
(** * The log viewer: src/pages/Analytics.tsx                             *)
(* ===================================================================== *)

Module LogViewer.

Inductive log_status : Type := Delivered | Failed | Pending.

Global Instance log_status_eq_dec : EqDecision log_status.
Proof. solve_decision. Defined.

Record EmailLog : Type := {
  id : string;
  batchId : string;
  to : string;
  from : string;
  subject : string;
  status : log_status;
  errorMessage : option string;
  isOpened : bool;
  openCount : Z;
  sentAt : string
}.

Record Pagination : Type := {
  page : Z;
  limit : Z;
  total : Z;
  totalPages : Z
}.

(** The state of the component: its [useState] cells and the account
    that [useAccounts()] provides (by its id). *)
Record state : Type := {
  currentAccount : option string;
  logs : list EmailLog;
  pagination : Pagination;
  statusFilter : string;
  isLoading : bool;
  selectedLog : option EmailLog
}.

Definition initial (account : option string) : state :=
  {| currentAccount := account;
     logs := [];
     pagination := {| page := 1; limit := 100; total := 0; totalPages := 0 |};
     statusFilter := "all";
     isLoading := false;
     selectedLog := None |}.

(** ** Stats calculation (lines 68 to 75) *)

Record Stats : Type := {
  delivered : nat;
  failed : nat;
  opened : nat;
  unopened : nat
}.

Definition stats (logs : list EmailLog) : Stats :=
  {| delivered := length (List.filter (λ l, bool_decide (status l = Delivered)) logs);
     failed := length (List.filter (λ l, bool_decide (status l = Failed)) logs);
     opened := length (List.filter (λ l, isOpened l) logs);
     unopened := length (List.filter (λ l, negb (isOpened l)) logs) |}.

(** ** What a handler does to the outside *)

(** The query string of [GET /api/email/log]; a number stands for the
    decimal text that [toString()] puts in the query. *)
Record query : Type := {
  q_accountId : string;
  q_page : Z;
  q_limit : Z;
  q_status : option string
}.

Inductive effect : Type :=
| ToastError (msg : string)
| ToastSuccess (msg : string)
| Download (filename : string) (mime : string) (content : string)
| Fetch (q : query).

(** ** Export (lines 78 to 95) *)

Definition newline : string := String (Ascii.ascii_of_nat 10) EmptyString.

(** [s.split(c)[0]]: the text before the first [c]. *)
Fixpoint before (c : Ascii.ascii) (s : string) : string :=
  match s with
  | EmptyString => ""
  | String x s' => if Ascii.eqb x c then "" else String x (before c s')
  end.

(** [isoNow] is [new Date().toISOString()]. *)
Definition handleExport (isoNow : string) (st : state) : list effect :=
  if (length (logs st) =? 0)%nat then [ToastError "No logs to export"]
  else
    let textContent := Json.join newline (map to (logs st)) in
    [ Download ("analytics-export-" ++ before "T"%char isoNow ++ ".txt")
               "text/plain" textContent;
      ToastSuccess ("Exported " ++ pretty (length (logs st)) ++ " emails") ].

(** ** Fetching and paging (lines 97 to 141 and 334 to 356) *)

(** The request [fetchLogs] sends; what it does with the answer
    ([setLogs], [setPagination], the failure toast) comes later and is
    not part of this function. *)
Definition fetchLogs (page : Z) (st : state) : list effect :=
  match currentAccount st with
  | None => []
  | Some account =>
      [ Fetch {| q_accountId := account;
                 q_page := page;
                 q_limit := limit (pagination st);
                 q_status := if String.eqb (statusFilter st) "all" then None
                             else Some (statusFilter st) |} ]
  end.

Definition handlePageChange (newPage : Z) (st : state) : list effect :=
  if (1 <=? newPage)%Z && (newPage <=? totalPages (pagination st))%Z
  then fetchLogs newPage st
  else [].

(** The two buttons of the pagination footer: a disabled button does not
    run its [onClick]. *)
Definition previous_disabled (st : state) : bool :=
  (page (pagination st) <=? 1)%Z || isLoading st.

Definition next_disabled (st : state) : bool :=
  (totalPages (pagination st) <=? page (pagination st))%Z || isLoading st.

(** Numbers are doubles, and a page number is an integer among them.  A
    sum is the exact result rounded to the nearest double, to the one with
    the even significand of two that are as near: it is exact up to 2^53
    in magnitude, and beyond that a multiple of the spacing of the doubles
    of that size. *)
Definition to_double (n : Z) : Z :=
  let a := Z.abs n in
  if (a <=? 2 ^ 53)%Z then n
  else
    let spacing := (2 ^ (Z.log2 a - 52))%Z in
    let q := (a / spacing)%Z in
    let r := (a mod spacing)%Z in
    let q' := if (2 * r <? spacing)%Z then q
              else if (spacing <? 2 * r)%Z then (q + 1)%Z
              else if Z.even q then q else (q + 1)%Z in
    (Z.sgn n * (q' * spacing))%Z.

Definition click_previous (st : state) : list effect :=
  if previous_disabled st then []
  else handlePageChange (to_double (page (pagination st) - 1)) st.

Definition click_next (st : state) : list effect :=
  if next_disabled st then []
  else handlePageChange (to_double (page (pagination st) + 1)) st.

(** ** Observations used in the statements below *)

(** "The number of loaded logs with ...", counted one log at a time. *)
Fixpoint count_if (p : EmailLog → bool) (logs : list EmailLog) : nat :=
  match logs with
  | [] => 0
  | l :: rest => (if p l then 1 else 0) + count_if p rest
  end.

(** The lines of a text: the pieces between newline characters. *)
Fixpoint lines_from (current : string) (s : string) : list string :=
  match s with
  | EmptyString => [current]
  | String c s' =>
      if Ascii.eqb c (Ascii.ascii_of_nat 10)
      then current :: lines_from "" s'
      else lines_from (current ++ String c EmptyString) s'
  end.

Definition lines (s : string) : list string := lines_from "" s.

Fixpoint single_line (s : string) : bool :=
  match s with
  | EmptyString => true
  | String c s' => negb (Ascii.eqb c (Ascii.ascii_of_nat 10)) && single_line s'
  end.

(** ** The rest of [fetchLogs], and the other handlers of the page *)

(** What comes back from [GET /api/email/log]: the body of the response as
    [fetchLogs] reads it.  [r_error] only ends up in the console. *)
Record fetch_result : Type := {
  r_success : bool;
  r_data : list EmailLog;
  r_pagination : Pagination;
  r_error : option string
}.

Inductive fetch_answer : Type :=
| Rejected                                   (* fetch(...) rejects *)
| Unparsable (ok : bool)                     (* response.json() rejects *)
| Answered (ok : bool) (result : fetch_result).

Definition setIsLoading (b : bool) (st : state) : state :=
  {| currentAccount := currentAccount st; logs := logs st;
     pagination := pagination st; statusFilter := statusFilter st;
     isLoading := b; selectedLog := selectedLog st |}.

Definition setLogs (data : list EmailLog) (st : state) : state :=
  {| currentAccount := currentAccount st; logs := data;
     pagination := pagination st; statusFilter := statusFilter st;
     isLoading := isLoading st; selectedLog := selectedLog st |}.

Definition setPagination (p : Pagination) (st : state) : state :=
  {| currentAccount := currentAccount st; logs := logs st;
     pagination := p; statusFilter := statusFilter st;
     isLoading := isLoading st; selectedLog := selectedLog st |}.

Definition setStatusFilter (v : string) (st : state) : state :=
  {| currentAccount := currentAccount st; logs := logs st;
     pagination := pagination st; statusFilter := v;
     isLoading := isLoading st; selectedLog := selectedLog st |}.

(** [fetchLogs(page)] from the call to the end of its [finally] block, given
    what the server answers: the state it leaves and what it did.  The
    request is the one [fetchLogs] describes; console output is left out. *)
Definition fetchLogs_settled (page : Z) (answer : fetch_answer) (st : state)
    : state * list effect :=
  match currentAccount st with
  | None => (st, [])
  | Some _ =>
      match answer with
      | Answered true result =>
          if r_success result then
            (setIsLoading false
               (setPagination (r_pagination result) (setLogs (r_data result) st)),
             fetchLogs page st)
          else (setIsLoading false st, fetchLogs page st)
      | _ =>
          (setIsLoading false st,
           (fetchLogs page st ++ [ToastError "Failed to refresh logs"])%list)
      end
  end.

(** The effect of lines 131 to 135, run when the account or the filter
    changes. *)
Definition on_change (st : state) : list effect :=
  match currentAccount st with
  | Some _ => fetchLogs 1 st
  | None => []
  end.

(** The Refresh and Export buttons (lines 187 to 195), disabled while
    loading. *)
Definition click_refresh (st : state) : list effect :=
  if isLoading st then [] else fetchLogs (page (pagination st)) st.

Definition click_export (isoNow : string) (st : state) : list effect :=
  if isLoading st then [] else handleExport isoNow st.

(** A text without the character [c]. *)
Fixpoint lacks (c : Ascii.ascii) (s : string) : bool :=
  match s with
  | EmptyString => true
  | String x s' => negb (Ascii.eqb x c) && lacks c s'
  end.

End LogViewer.

(* ===================================================================== *)
(** * Sample data                                                         *)
(* ===================================================================== *)

Module Samples.
Import Json Gateway.

Definition account (id key name : string) : value :=
  VObj {[ "id" := VStr id; "secretKey" := VStr key; "name" := VStr name ]}.

Definition accounts0 : list value :=
  [account "a1" "sk_1" "First"; account "a2" "sk_2" "Second"].

Definition subscribers0 : list value :=
  [VObj {[ "id" := VStr "u-0"; "email" := VStr "ann@example.org";
           "joinedAt" := VStr "2024-01-01T00:00:00.000Z" ]}].

Definition refused : js_error :=
  {| message := "Request failed with status code 403";
     code := Some "ERR_BAD_REQUEST";
     response := Some {| status := 403;
                         data := VObj {[ "error" := VStr "Forbidden" ]} |} |}.

Definition accepted : AxiosResponse :=
  {| status := 200; data := VObj {[ "success" := VBool true ]} |}.

(** A world with both files in place, whose provider answers every call
    the same way. *)
Definition world0 (answer : outcome AxiosResponse) : world :=
  {| disk := λ p, match p with
                  | accountsFilePath => Ok (Json (VArr accounts0))
                  | subscribersFilePath => Ok (Json (VArr subscribers0))
                  end;
     write_fault := λ _, None;
     write_damage := λ _, Untouched;
     plunk := λ _, answer;
     uuid := "3f0c2b1e-0000-4000-8000-000000000001";
     clock := "2024-06-01T12:00:00.000Z";
     number_text := pretty;
     trace := [] |}.

Definition mail0 : gmap string value :=
  {[ "accountId" := VStr "a2"; "to" := VStr "bob@example.org";
     "subject" := VStr "Hello"; "content" := VStr "<p>Hi</p>" ]}.

Definition mail1 : gmap string value :=
  <["from" := VStr "  me@example.org "]> mail0.

Definition key0 : gmap string value := {[ "secretKey" := VStr "sk_bad" ]}.

Definition track0 : gmap string value :=
  {[ "accountId" := VStr "a1"; "event" := VStr "signup";
     "email" := VStr "bob@example.org" ]}.

(** The calls these requests lead to. *)
Definition send_call0 : provider_request :=
  {| method := POST;
     url := "https://api.useplunk.com/v1/send";
     payload := Some (VObj {[ "to" := VStr "bob@example.org";
                              "subject" := VStr "Hello";
                              "body" := VStr "<p>Hi</p>";
                              "subscribed" := VBool true ]});
     headers := {[ "Authorization" := "Bearer sk_2";
                   "Content-Type" := "application/json" ]} |}.

Definition track_call0 : provider_request :=
  {| method := POST;
     url := "https://api.useplunk.com/v1/track";
     payload := Some (VObj {[ "event" := VStr "signup";
                              "email" := VStr "bob@example.org";
                              "subscribed" := VBool true;
                              "data" := VObj ∅ ]});
     headers := {[ "Authorization" := "Bearer sk_1";
                   "Content-Type" := "application/json" ]} |}.

Definition check_call0 : provider_request :=
  {| method := GET;
     url := "https://api.useplunk.com/v1/contacts?limit=1";
     payload := None;
     headers := {[ "Authorization" := "Bearer sk_bad" ]} |}.

Definition log0 (to : string) (st : LogViewer.log_status) (open : bool)
    : LogViewer.EmailLog :=
  {| LogViewer.id := "m-" ++ to; LogViewer.batchId := "b-1";
     LogViewer.to := to; LogViewer.from := "me@example.org";
     LogViewer.subject := "Hello"; LogViewer.status := st;
     LogViewer.errorMessage := None; LogViewer.isOpened := open;
     LogViewer.openCount := if open then 1 else 0;
     LogViewer.sentAt := "2024-06-01T12:00:00.000Z" |}.

Definition page0 : list LogViewer.EmailLog :=
  [log0 "ann@example.org" LogViewer.Delivered true;
   log0 "bob@example.org" LogViewer.Failed false;
   log0 "cy@example.org" LogViewer.Pending false].

Definition viewer0 : LogViewer.state :=
  {| LogViewer.currentAccount := Some "a1";
     LogViewer.logs := page0;
     LogViewer.pagination :=
       {| LogViewer.page := 2; LogViewer.limit := 100;
          LogViewer.total := 250; LogViewer.totalPages := 3 |};
     LogViewer.statusFilter := "all";
     LogViewer.isLoading := false;
     LogViewer.selectedLog := None |}.

End Samples.
(* ===================================================================== *)
(** * Facts about the gateway                                             *)
(* ===================================================================== *)

Module GatewayFacts.
Import Json Gateway.

(** ** Values *)

Example trim_both_ends : trim "  me@example.org " = "me@example.org".
Proof. reflexivity. Qed.

Example to_string_array :
  to_string pretty (VArr [VNum 3; VNull; VStr "a"; VArr [VNum (-4); VBool true]])
  = Ok "3,,a,-4,true".
Proof. reflexivity. Qed.

Example to_string_own_toString :
  to_string pretty (VArr [VStr "a"; VObj {[ "toString" := VNum 1 ]}])
  = Throw (TypeError "Cannot convert object to primitive value").
Proof. reflexivity. Qed.

Example trim_no_break_space :
  trim (String.string_of_list_ascii
          (utf8 [194; 160; 109; 101; 226; 128; 168; 32]%nat)) = "me".
Proof. reflexivity. Qed.

Example spread_array :
  own_props (VArr [VStr "x"; VStr "y"]) = {[ "0" := VStr "x"; "1" := VStr "y" ]}.
Proof. reflexivity. Qed.

(** ** Running the monad *)

Lemma run_bind {A B} (m : M A) (k : A → M B) w a w' :
  m w = (Ok a, w') → (x ← m; k x) w = k a w'.
Proof. intros H. unfold mbind, M_bind, bind. by rewrite H. Qed.

Lemma run_lift {A B} (o : outcome A) (k : A → M B) w a :
  o = Ok a → (x ← lift o; k x) w = k a w.
Proof. by intros ->. Qed.

Lemma run_try_ok {A} (m : M A) h w a w' :
  m w = (Ok a, w') → try_catch m h w = (Ok a, w').
Proof. intros H. unfold try_catch. by rewrite H. Qed.

Lemma performed_app {A} (m : M A) w o w' evs :
  m w = (o, w') → trace w' = (trace w ++ evs)%list → performed m w = evs.
Proof.
  intros H Ht. unfold performed. rewrite H. simpl. rewrite Ht.
  apply drop_app_length.
Qed.

Ltac run :=
  unfold try_catch, mbind, M_bind, bind, mret, M_ret, ret, lift, throw,
    readFile, writeJsonFile, writeFile, axios, console_error,
    randomUUID, new_Date, interpolate in *;
  simpl in *.

(** ** The trace only grows, and every handler answers *)

Lemma performed_nil {A} (m : M A) w o : m w = (o, w) → performed m w = [].
Proof. intros H. unfold performed. rewrite H. apply drop_all. Qed.

Lemma extends_ret {A} (a : A) : extends (mret a).
Proof. intros w. exists []. simpl. by rewrite app_nil_r. Qed.

Lemma extends_lift {A} (o : outcome A) : extends (lift o).
Proof. intros w. exists []. simpl. by rewrite app_nil_r. Qed.

Lemma extends_throw {A} e : extends (@throw A e).
Proof. intros w. exists []. simpl. by rewrite app_nil_r. Qed.

Lemma extends_bind {A B} (m : M A) (k : A → M B) :
  extends m → (∀ a, extends (k a)) → extends (m ≫= k).
Proof.
  intros Hm Hk w. unfold mbind, M_bind, bind.
  destruct (Hm w) as [evs Hevs]. destruct (m w) as [[a|e] w1]; simpl in *.
  - destruct (Hk a w1) as [evs' Hevs']. exists (evs ++ evs')%list.
    by rewrite Hevs', Hevs, app_assoc.
  - eauto.
Qed.

Lemma extends_try_catch {A} (m : M A) h :
  extends m → (∀ e, extends (h e)) → extends (try_catch m h).
Proof.
  intros Hm Hh w. unfold try_catch.
  destruct (Hm w) as [evs Hevs]. destruct (m w) as [[a|e] w1]; simpl in *.
  - eauto.
  - destruct (Hh e w1) as [evs' Hevs']. exists (evs ++ evs')%list.
    by rewrite Hevs', Hevs, app_assoc.
Qed.

Lemma extends_readFile p : extends (readFile p).
Proof. intros w. exists []. simpl. by rewrite app_nil_r. Qed.

Lemma extends_writeFile p t : extends (writeFile p t).
Proof.
  intros w. exists [WriteFile p t]. unfold writeFile.
  destruct (write_fault w p); [|done]. by destruct (write_damage w p).
Qed.

Lemma extends_axios r : extends (axios r).
Proof. intros w. by exists [ProviderCall r]. Qed.

Lemma extends_console_error l d : extends (console_error l d).
Proof. intros w. by exists [ConsoleError l d]. Qed.

Lemma extends_randomUUID : extends randomUUID.
Proof. intros w. exists []. simpl. by rewrite app_nil_r. Qed.

Lemma extends_new_Date : extends new_Date.
Proof. intros w. exists []. simpl. by rewrite app_nil_r. Qed.

Lemma extends_interpolate v : extends (interpolate v).
Proof. intros w. exists []. simpl. by rewrite app_nil_r. Qed.

Create HintDb gateway.
#[local] Hint Resolve extends_ret extends_lift extends_throw extends_readFile
  extends_writeFile extends_axios extends_console_error extends_randomUUID
  extends_new_Date extends_interpolate : gateway.

Ltac extends_steps :=
  repeat first
    [ solve [auto with gateway]
    | apply extends_bind; [|intros ?]
    | apply extends_try_catch; [|intros ?]
    | case_match ].

Lemma extends_readJsonFile p : extends (readJsonFile p).
Proof. unfold readJsonFile. extends_steps. Qed.

Lemma extends_writeJsonFile p v : extends (writeJsonFile p v).
Proof. apply extends_writeFile. Qed.

#[local] Hint Resolve extends_readJsonFile extends_writeJsonFile : gateway.

Lemma handlers_extend id body b :
  extends get_accounts ∧ extends (post_accounts b)
  ∧ extends (put_account id body) ∧ extends (delete_account id)
  ∧ extends (check_status body) ∧ extends (post_subscribers body)
  ∧ extends (send_email body) ∧ extends (track_event body).
Proof.
  unfold get_accounts, post_accounts, put_account, delete_account, check_status,
    post_subscribers, send_email, track_event.
  split_and!; extends_steps.
Qed.

Lemma settles_ret r : settles (mret r).
Proof. intros w. by exists r. Qed.

Lemma settles_try_catch (m : M reply) h :
  (∀ e, settles (h e)) → settles (try_catch m h).
Proof.
  intros Hh w. unfold try_catch. destruct (m w) as [[r|e] w1]; [by exists r|].
  apply Hh.
Qed.

Lemma settles_console l d r : settles (console_error l d;; mret r).
Proof. intros w. by exists r. Qed.

Ltac settles_steps :=
  repeat first
    [ apply settles_ret | apply settles_console
    | apply settles_try_catch; intros ? | case_match ].

Lemma handlers_settle id body b :
  settles get_accounts ∧ settles (post_accounts b)
  ∧ settles (put_account id body) ∧ settles (delete_account id)
  ∧ settles (check_status body) ∧ settles (post_subscribers body)
  ∧ settles (send_email body) ∧ settles (track_event body).
Proof.
  unfold get_accounts, post_accounts, put_account, delete_account, check_status,
    post_subscribers, send_email, track_event.
  split_and!; settles_steps.
Qed.

(** ** Reading a file that stands for a list *)

Lemma readJsonFile_stored p w l :
  stored w p = Some l → write_fault w p = None →
  readJsonFile p w = (Ok (VArr l), after_read p w).
Proof.
  unfold stored, readJsonFile, after_read. run. intros Hs Hw.
  destruct (disk w p) as [[| [] |]|e]; simplify_eq/=; try done.
  destruct (is_ENOENT e); simplify_eq. by rewrite Hw.
Qed.

Lemma after_read_nonempty p w l :
  stored w p = Some l → l ≠ [] → after_read p w = w.
Proof.
  unfold stored, after_read. destruct (disk w p) as [t|e]; [done|].
  destruct (is_ENOENT e); naive_solver.
Qed.

Lemma readJsonFile_nonempty p w l :
  stored w p = Some l → l ≠ [] → readJsonFile p w = (Ok (VArr l), w).
Proof.
  unfold stored, readJsonFile. run. intros Hs Hl.
  destruct (disk w p) as [[| [] |]|e]; simplify_eq/=; try done.
  destruct (is_ENOENT e); simplify_eq.
Qed.

Lemma write_fault_after_read p w :
  write_fault (after_read p w) = write_fault w.
Proof. unfold after_read. by destruct (disk w p). Qed.

Lemma disk_after_read_ne p q w : q ≠ p → disk (after_read p w) q = disk w q.
Proof.
  intros. unfold after_read. destruct (disk w p); [done|].
  simpl. by rewrite decide_False.
Qed.

Lemma stored_written p w l : stored (store p (Json (VArr l)) w) p = Some l.
Proof. unfold stored. simpl. by rewrite decide_True. Qed.

(** After a successful read, a successful write of [l'] leaves a world
    whose file stands for [l'] and whose last event is that write. *)
Lemma write_after_read p w l' :
  write_fault w p = None →
  ∃ w', writeJsonFile p (VArr l') (after_read p w) = (Ok (), w')
    ∧ stored w' p = Some l'
    ∧ last (trace w') = Some (WriteFile p (Json (VArr l')))
    ∧ ∀ q, q ≠ p → disk w' q = disk w q.
Proof.
  intros Hw. unfold writeJsonFile, writeFile.
  rewrite write_fault_after_read, Hw. eexists. split; [done|].
  split; [apply stored_written|]. split; [simpl; by rewrite last_snoc|].
  intros q Hq. simpl. rewrite decide_False by done.
  by apply disk_after_read_ne.
Qed.

(** ** Array callbacks on entries that are not [null] *)

Lemma get_prop_not_null v k : not_null v → get_prop v k = Ok (prop_of k v).
Proof. by destruct v. Qed.

Lemma array_find_pure (p : value → outcome bool) (q : value → bool) l :
  Forall (λ a, p a = Ok (q a)) l → array_find p l = Ok (List.find q l).
Proof.
  induction 1 as [|a l Ha _ IH]; [done|].
  simpl. rewrite Ha. simpl. by destruct (q a).
Qed.

Lemma array_filter_pure (p : value → outcome bool) (q : value → bool) l :
  Forall (λ a, p a = Ok (q a)) l → array_filter p l = Ok (List.filter q l).
Proof.
  induction 1 as [|a l Ha _ IH]; [done|].
  simpl. rewrite Ha, IH. simpl. by destruct (q a).
Qed.

Lemma other_id_pure id l :
  Forall not_null l →
  Forall (λ a, other_id id a = Ok (negb (account_has_id id a))) l.
Proof.
  intros Hn. eapply Forall_impl; [exact Hn|]. intros a Ha. unfold other_id.
  by rewrite (get_prop_not_null _ _ Ha).
Qed.

Lemma filter_no_match id l :
  Forall (λ a, account_has_id id a = false) l →
  List.filter (λ a, negb (account_has_id id a)) l = l.
Proof. induction 1 as [|a l Ha _ IH]; [done|]. simpl. by rewrite Ha, IH. Qed.

(** An entry whose property compares equal to a given value is an object. *)
Lemma strict_eq_u_Some o v : strict_eq_u o (Some v) = true → is_Some o.
Proof. destruct o; [eauto|done]. Qed.

Lemma prop_of_Some_obj k a : is_Some (prop_of k a) → ∃ props, a = VObj props.
Proof. destruct a; simpl; try (by intros [? [=]]). eauto. Qed.

(** ** DELETE /api/accounts/:id *)

(** C5.  When the account file stands for a list [l] without [null]
    entries and can be written, DELETE answers 204 and the file then
    stands for [l] without the accounts whose id is the requested one, the
    others in their order; when no account has that id the list is the
    same, and it is rewritten all the same. *)
Theorem delete_account_filters id w l :
  stored w accountsFilePath = Some l →
  Forall not_null l →
  write_fault w accountsFilePath = None →
  let kept := List.filter (λ a, negb (account_has_id id a)) l in
  ∃ w', delete_account id w = (Ok (send 204), w')
    ∧ stored w' accountsFilePath = Some kept
    ∧ (Forall (λ a, account_has_id id a = false) l → kept = l)
    ∧ last (trace w') = Some (WriteFile accountsFilePath (Json (VArr kept)))
    ∧ disk w' subscribersFilePath = disk w subscribersFilePath.
Proof.
  intros Hs Hn Hw kept.
  destruct (write_after_read accountsFilePath w kept Hw)
    as (w' & Hwrite & Hstored & Hlast & Hdisk).
  exists w'. split_and!; try done.
  - unfold delete_account. apply run_try_ok.
    erewrite run_bind by (by apply readJsonFile_stored). simpl.
    erewrite run_lift by done.
    erewrite run_lift by (apply array_filter_pure, other_id_pure, Hn).
    erewrite run_bind by apply Hwrite. done.
  - apply filter_no_match.
  - by apply Hdisk.
Qed.

Lemma delete_account_filters_witness :
  stored (Samples.world0 (Ok Samples.accepted)) accountsFilePath
    = Some Samples.accounts0
  ∧ ∃ w', delete_account "a1" (Samples.world0 (Ok Samples.accepted))
            = (Ok (send 204), w')
      ∧ stored w' accountsFilePath = Some [Samples.account "a2" "sk_2" "Second"].
Proof.
  split; [reflexivity|].
  destruct (delete_account_filters "a1" (Samples.world0 (Ok Samples.accepted))
              Samples.accounts0) as (w' & H1 & H2 & _).
  - reflexivity.
  - repeat constructor; discriminate.
  - reflexivity.
  - exists w'. split; [exact H1|]. exact H2.
Defined.

(** ** PUT /api/accounts/:id *)

Lemma array_map_merge id body l u :
  Forall not_null l →
  ∃ l' u', array_map (merge_account id body) l u = Ok (l', u')
    ∧ length l' = length l
    ∧ ∀ i acc, l !! i = Some acc →
        l' !! i = Some (if account_has_id id acc
                        then VObj (body ∪ own_props acc) else acc).
Proof.
  intros Hn. revert u. induction Hn as [|a l Ha _ IH]; intros u.
  { eexists [], u. split_and!; try done. }
  simpl. unfold merge_account at 1. rewrite (get_prop_not_null _ _ Ha). simpl.
  fold (account_has_id id a).
  destruct (account_has_id id a) eqn:Hid; simpl.
  - destruct (IH (VObj (body ∪ own_props a))) as (l' & u' & -> & Hlen & Hl').
    simpl. eexists _, _. split_and!; [done|simpl; by rewrite Hlen|].
    intros [|i] acc; simpl; [intros [= <-]; by rewrite Hid|apply Hl'].
  - destruct (IH u) as (l' & u' & -> & Hlen & Hl').
    simpl. eexists _, _. split_and!; [done|simpl; by rewrite Hlen|].
    intros [|i] acc; simpl; [intros [= <-]; by rewrite Hid|apply Hl'].
Qed.

Lemma array_map_no_match id body l u :
  Forall not_null l →
  Forall (λ a, account_has_id id a = false) l →
  array_map (merge_account id body) l u = Ok (l, u).
Proof.
  intros Hn. induction Hn as [|a l Ha _ IH]; [done|].
  intros [Hid Hrest]%Forall_cons. simpl.
  unfold merge_account at 1. rewrite (get_prop_not_null _ _ Ha). simpl.
  fold (account_has_id id a). rewrite Hid. simpl. by rewrite (IH Hrest).
Qed.

Lemma shallow_merge_union (old patch : gmap string value) :
  shallow_merge old patch (patch ∪ old).
Proof.
  intros k. rewrite lookup_union.
  by destruct (patch !! k), (old !! k).
Qed.

(** C7.  When the account file stands for a list [l] without [null]
    entries and can be written, PUT answers 200 and the file then stands for
    a list of the same length in which every account with the requested id
    is replaced by the shallow merge of that account with the request body
    (a field of the body wins, a field the body does not mention keeps its
    stored value), and every other account is where and what it was. *)
Theorem put_account_merges id body w l :
  stored w accountsFilePath = Some l →
  Forall not_null l →
  write_fault w accountsFilePath = None →
  ∃ r w' l', put_account id body w = (Ok r, w')
    ∧ res_status r = 200%Z
    ∧ stored w' accountsFilePath = Some l'
    ∧ length l' = length l
    ∧ ∀ i acc, l !! i = Some acc →
        if account_has_id id acc
        then ∃ old new, acc = VObj old ∧ l' !! i = Some (VObj new)
                        ∧ shallow_merge old body new
        else l' !! i = Some acc.
Proof.
  intros Hs Hn Hw.
  destruct (array_map_merge id body l VNull Hn) as (l' & u' & Hmap & Hlen & Hl').
  destruct (write_after_read accountsFilePath w l' Hw)
    as (w' & Hwrite & Hstored & _).
  eexists _, w', l'. split_and!; try done.
  - unfold put_account. apply run_try_ok.
    erewrite run_bind by (by apply readJsonFile_stored). simpl.
    erewrite run_lift by done.
    erewrite run_lift by exact Hmap. simpl.
    erewrite run_bind by apply Hwrite. done.
  - done.
  - intros i acc Hi. specialize (Hl' i acc Hi).
    destruct (account_has_id id acc) eqn:Hid; [|done].
    apply strict_eq_u_Some, prop_of_Some_obj in Hid as [old ->].
    exists old, (body ∪ old). split_and!; try done.
    apply shallow_merge_union.
Qed.

Lemma put_account_merges_witness :
  ∃ r w' l',
    put_account "a1" {[ "name" := VStr "Renamed" ]}
      (Samples.world0 (Ok Samples.accepted)) = (Ok r, w')
    ∧ res_status r = 200%Z
    ∧ stored w' accountsFilePath = Some l'
    ∧ length l' = 2.
Proof.
  destruct (put_account_merges "a1" {[ "name" := VStr "Renamed" ]}
              (Samples.world0 (Ok Samples.accepted)) Samples.accounts0)
    as (r & w' & l' & H1 & H2 & H3 & H4 & _).
  - reflexivity.
  - repeat constructor; discriminate.
  - reflexivity.
  - exists r, w', l'. split; [exact H1|]. split; [exact H2|].
    split; [exact H3|exact H4].
Defined.

(** C10.  When no stored account has the requested id (the account file
    standing for a list [l] without [null] entries, and writable), PUT
    answers 200 with the empty object, not 404, and rewrites the file with
    the same list. *)
Theorem put_account_unknown_id id body w l :
  stored w accountsFilePath = Some l →
  Forall not_null l →
  write_fault w accountsFilePath = None →
  Forall (λ a, account_has_id id a = false) l →
  ∃ w', put_account id body w = (Ok (json 200 (VObj ∅)), w')
    ∧ stored w' accountsFilePath = Some l
    ∧ last (trace w') = Some (WriteFile accountsFilePath (Json (VArr l))).
Proof.
  intros Hs Hn Hw Hid.
  destruct (write_after_read accountsFilePath w l Hw)
    as (w' & Hwrite & Hstored & Hlast & _).
  exists w'. split_and!; try done.
  unfold put_account. apply run_try_ok.
  erewrite run_bind by (by apply readJsonFile_stored). simpl.
  erewrite run_lift by done.
  erewrite run_lift by (by apply array_map_no_match). simpl.
  erewrite run_bind by apply Hwrite. done.
Qed.

Lemma put_account_unknown_id_witness :
  Forall (λ a, account_has_id "zz" a = false) Samples.accounts0
  ∧ ∃ w', put_account "zz" {[ "name" := VStr "Renamed" ]}
            (Samples.world0 (Ok Samples.accepted))
          = (Ok (json 200 (VObj ∅)), w')
      ∧ stored w' accountsFilePath = Some Samples.accounts0.
Proof.
  assert (Forall (λ a, account_has_id "zz" a = false) Samples.accounts0) as Hid
    by (repeat constructor).
  split; [exact Hid|].
  destruct (put_account_unknown_id "zz" {[ "name" := VStr "Renamed" ]}
              (Samples.world0 (Ok Samples.accepted)) Samples.accounts0)
    as (w' & H1 & H2 & _).
  - reflexivity.
  - repeat constructor; discriminate.
  - reflexivity.
  - exact Hid.
  - exists w'. split; [exact H1|exact H2].
Defined.

(** ** POST /api/subscribers *)


Lemma find_existsb_false (q : value → bool) l :
  existsb q l = false → List.find q l = None.
Proof.
  induction l as [|a l IH]; [done|]. simpl.
  destruct (q a); [done|]. simpl. exact IH.
Qed.

Lemma has_email_pure email l :
  Forall not_null l →
  Forall (λ s, has_email (Some email) s = Ok (subscriber_has_email email s)) l.
Proof.
  intros Hn. eapply Forall_impl; [exact Hn|]. intros a Ha. unfold has_email.
  by rewrite (get_prop_not_null _ _ Ha).
Qed.



(** ** Missing fields *)

Lemma rejects_intro (m : M reply) w body :
  m w = (Ok (json 400 body), w) → rejects m w.
Proof. intros H. exists (json 400 body). eauto using performed_nil. Qed.

(** C4.  A request that lacks a required field (the field is absent, or
    holds a value that counts as false) is answered with 400 by each of
    the four handlers, and the world is returned as it was: no provider
    call, no file write, no event at all. *)
Theorem missing_field_400 body w :
  (truthy_u (body !! "secretKey") = false → rejects (check_status body) w)
  ∧ (truthy_u (body !! "email") = false → rejects (post_subscribers body) w)
  ∧ (truthy_u (body !! "accountId") = false ∨ truthy_u (body !! "to") = false
     ∨ truthy_u (body !! "subject") = false
     ∨ truthy_u (body !! "content") = false →
     rejects (send_email body) w)
  ∧ (truthy_u (body !! "accountId") = false ∨ truthy_u (body !! "event") = false
     ∨ truthy_u (body !! "email") = false →
     rejects (track_event body) w).
Proof.
  split_and!.
  - intros H. eapply rejects_intro. unfold check_status. by rewrite H.
  - intros H. eapply rejects_intro. unfold post_subscribers. by rewrite H.
  - intros H. eapply rejects_intro. unfold send_email.
    replace (_ || _) with true; [done|].
    symmetry. destruct H as [H|[H|[H|H]]]; rewrite H; simpl;
      rewrite ?orb_true_r; done.
  - intros H. eapply rejects_intro. unfold track_event.
    replace (_ || _) with true; [done|].
    symmetry. destruct H as [H|[H|H]]; rewrite H; simpl;
      rewrite ?orb_true_r; done.
Qed.

Lemma missing_field_400_witness :
  let w := Samples.world0 (Ok Samples.accepted) in
  rejects (check_status ∅) w
  ∧ rejects (post_subscribers ∅) w
  ∧ rejects (send_email (delete "content" Samples.mail0)) w
  ∧ rejects (track_event {[ "accountId" := VStr "a1"; "event" := VStr "signup" ]}) w.
Proof.
  intros w. split_and!.
  - apply (missing_field_400 ∅ w). reflexivity.
  - apply (missing_field_400 ∅ w). reflexivity.
  - apply (missing_field_400 (delete "content" Samples.mail0) w).
    right; right; right. reflexivity.
  - apply (missing_field_400
             {[ "accountId" := VStr "a1"; "event" := VStr "signup" ]} w).
    right; right. reflexivity.
Defined.

(** ** POST /api/send-email *)

Lemma send_payload_forwarded to subject content from :
  (∀ f, from = Some f → truthy f = true → ∃ s, f = VStr s) →
  send_payload to subject content from
  = Ok (with_prop "from" (forwarded_from from)
          (with_prop "to" to
             (with_prop "subject" subject
                (with_prop "body" content {[ "subscribed" := VBool true ]})))).
Proof.
  intros Hf. unfold send_payload. destruct from as [f|]; [|done].
  destruct (truthy f) eqn:Ht.
  - destruct (Hf f eq_refl Ht) as [s ->]. simpl.
    by destruct (String.eqb (trim s) "").
  - destruct f as [| | |s| |]; try done. simpl in *.
    destruct s; [done|discriminate].
Qed.

Lemma has_id_pure accountId l :
  Forall not_null l →
  Forall (λ a, has_id accountId a = Ok (strict_eq_u (prop_of "id" a) accountId)) l.
Proof.
  intros Hn. eapply Forall_impl; [exact Hn|]. intros a Ha. unfold has_id.
  by rewrite (get_prop_not_null _ _ Ha).
Qed.

Lemma truthy_u_Some o : truthy_u o = true → ∃ v, o = Some v ∧ truthy v = true.
Proof. destruct o; [eauto|done]. Qed.

(** The run of the handler once the account is found: one provider call,
    then the relay of its answer or of its failure. *)
Lemma send_email_run body w l account key :
  truthy_u (body !! "accountId") = true →
  truthy_u (body !! "to") = true →
  truthy_u (body !! "subject") = true →
  truthy_u (body !! "content") = true →
  (∀ f, body !! "from" = Some f → truthy f = true → ∃ s, f = VStr s) →
  stored w accountsFilePath = Some l →
  Forall not_null l →
  List.find (λ a, strict_eq_u (prop_of "id" a) (body !! "accountId")) l
    = Some account →
  to_string_u (number_text w) (prop_of "secretKey" account) = Ok key →
  let p := with_prop "from" (forwarded_from (body !! "from"))
             (with_prop "to" (body !! "to")
                (with_prop "subject" (body !! "subject")
                   (with_prop "body" (body !! "content")
                      {[ "subscribed" := VBool true ]}))) in
  let rq := {| method := POST; url := "https://api.useplunk.com/v1/send";
               payload := Some (VObj p);
               headers := bearer_headers key |} in
  send_email body w
  = match plunk w rq with
    | Ok answer => (Ok (json 200 (data answer)), log (ProviderCall rq) w)
    | Throw e =>
        (Ok (json (error_status e)
               (VObj {[ "error" := VStr "Failed to send email";
                        "details" := error_detail e ]})),
         log (ConsoleError "Plunk Error:" (error_detail e))
           (log (ProviderCall rq) w))
    end.
Proof.
  intros Ha Hto Hsu Hco Hfrom Hs Hn Hfind Hkey p rq.
  pose proof (find_some _ _ Hfind) as [Hin Hid].
  assert (∃ props, account = VObj props) as [props ->].
  { apply truthy_u_Some in Ha as (v & Hv & _). rewrite Hv in Hid.
    by apply strict_eq_u_Some, prop_of_Some_obj in Hid. }
  unfold send_email. rewrite Ha, Hto, Hsu, Hco. cbn [negb orb].
  unfold try_catch.
  erewrite run_bind; last first.
  { eapply readJsonFile_nonempty; [done|]. intros ->. destruct Hin. }
  simpl. erewrite run_lift by done.
  erewrite run_lift by (apply array_find_pure, has_id_pure, Hn).
  rewrite Hfind. simpl.
  rewrite (send_payload_forwarded _ _ _ _ Hfrom).
  simpl. fold p.
  unfold interpolate, axios, console_error, lift, mret, M_ret, ret, mbind,
    M_bind, bind. simpl.
  simpl in Hkey. rewrite Hkey. subst rq. simpl. by destruct (plunk w _).
Qed.

(** C3, as the gateway does it.  For a request with the four required
    fields, a [from] that is a string when it is given, and a stored
    account whose id is the request's [accountId] (the first such account
    of a list without [null] entries) and whose secret key has the text
    [key] (a string is its own text): the handler calls the provider
    once, with POST on the send URL; the payload holds [to] and [subject]
    of the request, its [content] under [body], the constant
    [subscribed: true], and [from] trimmed when it is a string that is not
    blank, and nothing else; the Authorization header is "Bearer "
    followed by the secret key of that account; and a successful answer of
    the provider is relayed with status 200. *)
Theorem send_email_forwards body w l account key :
  truthy_u (body !! "accountId") = true →
  truthy_u (body !! "to") = true →
  truthy_u (body !! "subject") = true →
  truthy_u (body !! "content") = true →
  (∀ f, body !! "from" = Some f → truthy f = true → ∃ s, f = VStr s) →
  stored w accountsFilePath = Some l →
  Forall not_null l →
  List.find (λ a, strict_eq_u (prop_of "id" a) (body !! "accountId")) l
    = Some account →
  to_string_u (number_text w) (prop_of "secretKey" account) = Ok key →
  ∃ rq p rest,
    performed (send_email body) w = ProviderCall rq :: rest
    ∧ forallb (λ ev, negb (is_effect ev)) rest = true
    ∧ method rq = POST
    ∧ url rq = "https://api.useplunk.com/v1/send"
    ∧ payload rq = Some (VObj p)
    ∧ p !! "to" = body !! "to"
    ∧ p !! "subject" = body !! "subject"
    ∧ p !! "body" = body !! "content"
    ∧ p !! "subscribed" = Some (VBool true)
    ∧ p !! "from" = forwarded_from (body !! "from")
    ∧ (∀ k, k ∉ ["to"; "subject"; "body"; "subscribed"; "from"] → p !! k = None)
    ∧ headers rq !! "Authorization" = Some ("Bearer " ++ key)
    ∧ ∀ answer, plunk w rq = Ok answer →
        (send_email body w).1 = Ok (json 200 (data answer)).
Proof.
  intros Ha Hto Hsu Hco Hfrom Hs Hn Hfind Hkey.
  pose proof (send_email_run body w l account key
                Ha Hto Hsu Hco Hfrom Hs Hn Hfind Hkey) as Hrun.
  cbv zeta in Hrun.
  set (p := with_prop "from" _ _) in Hrun.
  set (rq := Build_provider_request _ _ _ _) in Hrun.
  exists rq, p.
  eexists (match plunk w rq with
           | Ok _ => []
           | Throw e => [ConsoleError "Plunk Error:" (error_detail e)]
           end).
  apply truthy_u_Some in Hto as (to & Eto & _).
  apply truthy_u_Some in Hsu as (subject & Esu & _).
  apply truthy_u_Some in Hco as (content & Eco & _).
  split_and!; try done.
  - destruct (plunk w rq); (eapply performed_app; [exact Hrun|]);
      simpl; by rewrite <- ?app_assoc.
  - by destruct (plunk w rq).
  - unfold p. rewrite Eto. destruct (forwarded_from _); by simplify_map_eq.
  - unfold p. rewrite Eto, Esu. destruct (forwarded_from _); by simplify_map_eq.
  - unfold p. rewrite Eto, Esu, Eco. destruct (forwarded_from _); by simplify_map_eq.
  - unfold p. rewrite Eto, Esu, Eco. destruct (forwarded_from _); by simplify_map_eq.
  - unfold p. rewrite Eto, Esu, Eco. destruct (forwarded_from _); by simplify_map_eq.
  - intros k Hk. unfold p. rewrite Eto, Esu, Eco.
    assert (k ≠ "to" ∧ k ≠ "subject" ∧ k ≠ "body" ∧ k ≠ "subscribed" ∧ k ≠ "from")
      as (? & ? & ? & ? & ?) by set_solver.
    destruct (forwarded_from _); by simplify_map_eq.
  - intros answer Hp. rewrite Hrun, Hp. done.
Qed.


Lemma send_email_forwards_witness :
  let w := Samples.world0 (Ok Samples.accepted) in
  ∃ rq p rest,
    performed (send_email Samples.mail1) w = ProviderCall rq :: rest
    ∧ payload rq = Some (VObj p)
    ∧ p !! "body" = Some (VStr "<p>Hi</p>")
    ∧ p !! "from" = Some (VStr "me@example.org")
    ∧ headers rq !! "Authorization" = Some "Bearer sk_2".
Proof.
  intros w.
  pose proof (send_email_forwards Samples.mail1 w Samples.accounts0
                (Samples.account "a2" "sk_2" "Second") "sk_2") as H.
  destruct H as (rq & p & rest & H1 & _ & _ & _ & H5 & _ & _ & H8 & _ & H10 & _ & H12 & _).
  - reflexivity.
  - reflexivity.
  - reflexivity.
  - reflexivity.
  - intros f Hf _. vm_compute in Hf. injection Hf as <-. eexists. reflexivity.
  - reflexivity.
  - repeat constructor; discriminate.
  - reflexivity.
  - reflexivity.
  - exists rq, p, rest. split; [exact H1|]. split; [exact H5|].
    split; [exact H8|]. split; [exact H10|exact H12].
Defined.

(** C3, as the specification states it, fails: a request without a
    [subscribed] field reaches the provider with [subscribed: true] in its
    payload, so the payload is not the renamed fields of the request. *)
Lemma send_email_adds_subscribed :
  let w := Samples.world0 (Ok Samples.accepted) in
  ∃ p, performed (send_email Samples.mail0) w = [ProviderCall Samples.send_call0]
    ∧ payload Samples.send_call0 = Some (VObj p)
    ∧ Samples.mail0 !! "subscribed" = None
    ∧ p !! "subscribed" = Some (VBool true)
    ∧ p ≠ renamed_fields Samples.mail0.
Proof.
  intros w. eexists. split_and!.
  - vm_compute. reflexivity.
  - reflexivity.
  - reflexivity.
  - reflexivity.
  - intros H. apply (f_equal (λ m : gmap string value, m !! "subscribed")) in H.
    vm_compute in H. discriminate H.
Qed.

(** ** The gateway keeps its files sound *)

(** The statements above take a file that stands for a list without [null]
    entries.  That is what the gateway finds when it alone writes the files:
    starting from files that are missing, empty or sound, every handler
    leaves them sound. *)

Lemma keeps_ret {A} (a : A) (Q : A → Prop) : Q a → keeps_sound (mret a) Q.
Proof. intros Ha w Hg Hw. done. Qed.

Lemma keeps_lift {A} (o : outcome A) (Q : A → Prop) :
  (∀ a, o = Ok a → Q a) → keeps_sound (lift o) Q.
Proof. intros Ha w Hg Hw. split; [done|]. simpl. destruct o; eauto. Qed.

Lemma keeps_throw {A} e (Q : A → Prop) : keeps_sound (throw e) Q.
Proof. intros w Hg Hw. done. Qed.

Lemma keeps_bind {A B} (m : M A) (k : A → M B) (P : A → Prop) (Q : B → Prop) :
  keeps_sound m P → (∀ a, P a → keeps_sound (k a) Q) → keeps_sound (m ≫= k) Q.
Proof.
  intros Hm Hk w Hg Hw. unfold mbind, M_bind, bind.
  destruct (Hm w Hg Hw) as [[Hg1 Hs] Hp].
  destruct (m w) as [[a|e] w1]; simpl in *; [|done].
  by apply Hk.
Qed.

Lemma keeps_try_catch {A} (m : M A) h (Q : A → Prop) :
  keeps_sound m Q → (∀ e, keeps_sound (h e) Q) → keeps_sound (try_catch m h) Q.
Proof.
  intros Hm Hh w Hg Hw. unfold try_catch.
  destruct (Hm w Hg Hw) as [[Hg1 Hs] Hp].
  destruct (m w) as [[a|e] w1]; simpl in *; [done|].
  by apply Hh.
Qed.

Lemma keeps_weaken {A} (m : M A) (P Q : A → Prop) :
  keeps_sound m P → (∀ a, P a → Q a) → keeps_sound m Q.
Proof.
  intros Hm HPQ w Hg Hw. destruct (Hm w Hg Hw) as [Hs Hp]. split; [done|].
  destruct ((m w).1); eauto.
Qed.

Lemma keeps_writeFile p t : sound_text p t → keeps_sound (writeFile p t) (λ _, True).
Proof.
  intros Ht w Hg Hw. unfold writeFile. destruct (write_fault w p); simpl.
  - split; [|done]. pose proof (Hg p) as Hp.
    destruct (write_damage w p); simpl; [done| |by destruct (Hp e)].
    split; [done|]. intros q. simpl. case_decide; [by subst|apply Hw].
  - split; [|done]. split; [done|].
    intros q. simpl. case_decide; [by subst|apply Hw].
Qed.

Lemma keeps_readFile p :
  keeps_sound (readFile p) (sound_text p).
Proof.
  intros w Hg Hw. split; [done|]. simpl. specialize (Hw p).
  by destruct (disk w p).
Qed.

Lemma keeps_axios r : keeps_sound (axios r) (λ _, True).
Proof. intros w Hg Hw. split; [done|]. simpl. by destruct (plunk w r). Qed.

Lemma keeps_interpolate v : keeps_sound (interpolate v) (λ _, True).
Proof.
  intros w Hg Hw. split; [done|]. simpl. by destruct (to_string_u _ v).
Qed.

Lemma keeps_console_error l d : keeps_sound (console_error l d) (λ _, True).
Proof. done. Qed.

Lemma keeps_randomUUID : keeps_sound randomUUID (λ _, True).
Proof. done. Qed.

Lemma keeps_new_Date : keeps_sound new_Date (λ _, True).
Proof. done. Qed.

Lemma keeps_readJsonFile p : keeps_sound (readJsonFile p) (sound_list p).
Proof.
  intros w Hg Hw. unfold readJsonFile, try_catch, readFile, mbind, M_bind, bind.
  pose proof (Hw p) as Hp. simpl.
  destruct (disk w p) as [[|v|e]|e] eqn:E; simpl in *; try done.
  - split; [done|]. destruct p; by constructor.
  - rewrite Hp.
    assert (sound_text p (Json (VArr []))) as Hnil by (destruct p; by constructor).
    destruct (keeps_writeFile p (Json (VArr [])) Hnil w Hg Hw) as [Hs _].
    unfold writeFile in *. destruct (write_fault w p); simpl in *; [done|].
    split; [done|]. destruct p; by constructor.
Qed.

Lemma array_filter_Forall (P : value → Prop) p l l' :
  array_filter p l = Ok l' → Forall P l → Forall P l'.
Proof.
  revert l'. induction l as [|a l IH]; intros l'; simpl.
  { by intros [= <-]. }
  destruct (p a) as [b|]; simpl; [|done].
  destruct (array_filter p l) as [rest|]; simpl; [|done].
  intros [= <-] [Ha Hl]%Forall_cons. destruct b; eauto.
Qed.

Lemma array_map_not_null id body l u l' u' :
  array_map (merge_account id body) l u = Ok (l', u') →
  Forall not_null l → Forall not_null l'.
Proof.
  revert u l'. induction l as [|a l IH]; intros u l'; simpl.
  { by intros [= <- <-]. }
  destruct (merge_account id body a u) as [[b u1]|] eqn:Hm; simpl; [|done].
  destruct (array_map _ l u1) as [[rest u2]|] eqn:Hr; simpl; [|done].
  intros [= <- <-] [Ha Hl]%Forall_cons. constructor; [|by eapply IH].
  unfold merge_account in Hm. destruct (get_prop a "id"); simpl in Hm; [|done].
  destruct (strict_eq_u _ _); by simplify_eq.
Qed.

Lemma keeps_as_array p name method accounts :
  sound_list p accounts →
  keeps_sound (lift (as_array name method accounts)) (λ items, sound_list p (VArr items)).
Proof. intros Ha. apply keeps_lift. intros items Hi. destruct accounts; by simplify_eq/=. Qed.

Lemma keeps_delete id : keeps_sound (delete_account id) (λ _, True).
Proof.
  unfold delete_account.
  eapply keeps_try_catch; [|intros; by apply keeps_ret].
  eapply keeps_bind; [apply keeps_readJsonFile|]. intros accounts Ha.
  eapply keeps_bind; [by apply keeps_as_array|]. intros items Hi.
  eapply (keeps_bind _ _ (λ kept, Forall not_null kept)); [apply keeps_lift|].
  { intros kept Hk. by eapply array_filter_Forall. }
  intros kept Hk.
  eapply keeps_bind; [by apply keeps_writeFile|]. intros _ _. by apply keeps_ret.
Qed.

Lemma keeps_put id body : keeps_sound (put_account id body) (λ _, True).
Proof.
  unfold put_account.
  eapply keeps_try_catch; [|intros; by apply keeps_ret].
  eapply keeps_bind; [apply keeps_readJsonFile|]. intros accounts Ha.
  eapply keeps_bind; [by apply keeps_as_array|]. intros items Hi.
  eapply (keeps_bind _ _ (λ r, Forall not_null r.1)); [apply keeps_lift|].
  { intros [l' u'] Hk. by eapply array_map_not_null. }
  intros [l' u'] Hk.
  eapply keeps_bind; [by apply keeps_writeFile|]. intros _ _. by apply keeps_ret.
Qed.

Lemma keeps_post_accounts b : keeps_sound (post_accounts b) (λ _, True).
Proof.
  unfold post_accounts.
  eapply keeps_try_catch; [|intros; by apply keeps_ret].
  eapply keeps_bind; [apply keeps_readJsonFile|]. intros accounts Ha.
  eapply keeps_bind; [by apply keeps_as_array|]. intros items Hi.
  eapply keeps_bind; [apply keeps_writeFile|].
  { apply Forall_app. split; [done|]. repeat constructor. by destruct b. }
  intros _ _. by apply keeps_ret.
Qed.

Lemma keeps_get_accounts : keeps_sound get_accounts (λ _, True).
Proof.
  unfold get_accounts.
  eapply keeps_try_catch; [|intros; by apply keeps_ret].
  eapply keeps_bind; [apply keeps_readJsonFile|]. intros; by apply keeps_ret.
Qed.

Lemma keeps_post_subscribers body : keeps_sound (post_subscribers body) (λ _, True).
Proof.
  unfold post_subscribers. destruct (truthy_u (body !! "email")) eqn:He; simpl;
    [|by apply keeps_ret].
  eapply keeps_try_catch; [|intros; by apply keeps_ret].
  eapply keeps_bind; [apply keeps_readJsonFile|]. intros subscribers Ha.
  eapply keeps_bind; [by apply keeps_as_array|]. intros items Hi.
  eapply keeps_bind; [by apply (keeps_lift _ (λ _, True))|]. intros found _.
  destruct (truthy_u found); [by apply keeps_ret|].
  eapply keeps_bind; [apply keeps_randomUUID|]. intros uuid _.
  eapply keeps_bind; [apply keeps_new_Date|]. intros joinedAt _.
  eapply keeps_bind; [apply keeps_writeFile|].
  { apply Forall_app. split; [done|]. repeat constructor; [done|].
    destruct (body !! "email") as [email|]; [|done]. simpl.
    by rewrite lookup_insert_eq. }
  intros _ _. by apply keeps_ret.
Qed.

Lemma keeps_check_status body : keeps_sound (check_status body) (λ _, True).
Proof.
  unfold check_status. case_match; [by apply keeps_ret|].
  eapply keeps_try_catch.
  - eapply keeps_bind; [apply keeps_interpolate|]. intros key _.
    eapply keeps_bind; [apply keeps_axios|]. intros; by apply keeps_ret.
  - intros e. eapply keeps_bind; [apply keeps_console_error|].
    intros; by apply keeps_ret.
Qed.

Lemma keeps_proxy_failure label (r : js_error → reply) :
  ∀ e, keeps_sound (console_error label (error_detail e);; mret (r e) : M reply)
         (λ _, True).
Proof.
  intros e. eapply keeps_bind; [apply keeps_console_error|].
  intros; by apply keeps_ret.
Qed.

Lemma keeps_send_email body : keeps_sound (send_email body) (λ _, True).
Proof.
  unfold send_email. case_match; [by apply keeps_ret|].
  eapply keeps_try_catch; [|apply (keeps_proxy_failure _ (λ e, json _ _))].
  eapply keeps_bind; [apply keeps_readJsonFile|]. intros accounts _.
  eapply keeps_bind; [by apply (keeps_lift _ (λ _, True))|]. intros items _.
  eapply keeps_bind; [by apply (keeps_lift _ (λ _, True))|]. intros account _.
  repeat case_match; try by apply keeps_ret.
  eapply keeps_bind; [by apply (keeps_lift _ (λ _, True))|]. intros payload _.
  eapply keeps_bind; [by apply (keeps_lift _ (λ _, True))|]. intros secretKey _.
  eapply keeps_bind; [apply keeps_interpolate|]. intros key _.
  eapply keeps_bind; [apply keeps_axios|]. intros; by apply keeps_ret.
Qed.

Lemma keeps_track_event body : keeps_sound (track_event body) (λ _, True).
Proof.
  unfold track_event. case_match; [by apply keeps_ret|].
  eapply keeps_try_catch; [|apply (keeps_proxy_failure _ (λ e, json _ _))].
  eapply keeps_bind; [apply keeps_readJsonFile|]. intros accounts _.
  eapply keeps_bind; [by apply (keeps_lift _ (λ _, True))|]. intros items _.
  eapply keeps_bind; [by apply (keeps_lift _ (λ _, True))|]. intros account _.
  repeat case_match; try by apply keeps_ret.
  eapply keeps_bind; [by apply (keeps_lift _ (λ _, True))|]. intros secretKey _.
  eapply keeps_bind; [apply keeps_interpolate|]. intros key _.
  eapply keeps_bind; [apply keeps_axios|]. intros; by apply keeps_ret.
Qed.

Lemma sound_disk_stored w :
  sound_disk w →
  (∃ l, stored w accountsFilePath = Some l ∧ Forall not_null l)
  ∧ (∃ l, stored w subscribersFilePath = Some l ∧ Forall sound_subscriber l).
Proof.
  intros Hw. split.
  - specialize (Hw accountsFilePath). unfold stored.
    destruct (disk w accountsFilePath) as [[|[]|]|e]; simpl in *; try done.
    + exists []. by split.
    + eauto.
    + rewrite Hw. exists []. by split.
  - specialize (Hw subscribersFilePath). unfold stored.
    destruct (disk w subscribersFilePath) as [[|[]|]|e]; simpl in *; try done.
    + exists []. by split.
    + eauto.
    + rewrite Hw. exists []. by split.
Qed.

Lemma strict_eq_truthy a b : strict_eq a b = true → truthy a = truthy b.
Proof.
  destruct a, b; simpl; try done.
  - by intros ->%Bool.eqb_prop.
  - by intros ->%Z.eqb_eq.
  - by intros ->%String.eqb_eq.
Qed.

Lemma occurring_email_truthy email l :
  Forall sound_subscriber l →
  existsb (subscriber_has_email email) l = true →
  truthy email = true.
Proof.
  intros Hl (s & Hin & Hs)%existsb_exists.
  apply list_elem_of_In in Hin.
  destruct (proj1 (Forall_forall _ _) Hl s Hin) as [_ Ht].
  unfold subscriber_has_email in Hs.
  destruct (prop_of "email" s) as [v|]; [|done]. simpl in *.
  by rewrite <- (strict_eq_truthy _ _ Hs).
Qed.
(** Every handler keeps a sound disk sound, whatever it answers, as long
    as no rejected write leaves a text cut short. *)
Lemma handlers_keep_sound id body b :
  keeps_sound get_accounts (λ _, True)
  ∧ keeps_sound (post_accounts b) (λ _, True)
  ∧ keeps_sound (put_account id body) (λ _, True)
  ∧ keeps_sound (delete_account id) (λ _, True)
  ∧ keeps_sound (check_status body) (λ _, True)
  ∧ keeps_sound (post_subscribers body) (λ _, True)
  ∧ keeps_sound (send_email body) (λ _, True)
  ∧ keeps_sound (track_event body) (λ _, True).
Proof.
  split_and!; eauto using keeps_get_accounts, keeps_post_accounts, keeps_put,
    keeps_delete, keeps_check_status, keeps_post_subscribers, keeps_send_email,
    keeps_track_event.
Qed.

Example world0_sound : sound_disk (Samples.world0 (Ok Samples.accepted)).
Proof.
  intros [|]; simpl.
  - repeat constructor; discriminate.
  - repeat constructor; discriminate.
Qed.

(** ** Failures of the provider *)

(** What the read can do to the world: nothing, or one write of the
    empty array; the provider is the same afterwards. *)
Lemma readJsonFile_cases p w :
  ∃ o w', readJsonFile p w = (o, w') ∧ plunk w' = plunk w
    ∧ (trace w' = trace w
       ∨ trace w' = (trace w ++ [WriteFile p (Json (VArr []))])%list).
Proof.
  unfold readJsonFile. run.
  destruct (disk w p) as [[| v |e]|e]; simpl; eauto 10;
    (destruct (is_ENOENT e); simpl; eauto 10;
     destruct (write_fault w p); simpl; eauto 10;
     destruct (write_damage w p); simpl; eauto 10).
Qed.

Lemma relays_intro e props :
  props !! "details" = Some (error_detail e) →
  relays e (json (error_status e) (VObj props)).
Proof.
  unfold relays, error_status, error_detail, or_else. intros Hd.
  destruct (response e) as [answer|]; simpl in *; [|done].
  split.
  - intros Hs. by apply Z.eqb_neq in Hs as ->.
  - intros Ht. rewrite Ht in Hd. eauto.
Qed.

(** Membership of an event among those a run performed, once the trace
    of the run is known. *)
Ltac member H :=
  rewrite <- ?app_assoc, ?drop_app_length, ?drop_all in H; simpl in H;
  repeat (apply elem_of_cons in H as [H|H]);
  try (by apply elem_of_nil in H); try discriminate H.

Ltac same_failure :=
  match goal with
  | H1 : plunk ?w ?r = Throw ?a, H2 : plunk ?w ?r = Throw ?b |- _ =>
      assert (a = b) as -> by congruence
  end.

Lemma send_email_failure body w rq e :
  ProviderCall rq ∈ performed (send_email body) w →
  plunk w rq = Throw e →
  ∃ r w', send_email body w = (Ok r, w') ∧ relays e r.
Proof.
  unfold performed, send_email.
  destruct (_ || _); simpl.
  { rewrite drop_all. by intros ?%elem_of_nil. }
  run.
  destruct (readJsonFile_cases accountsFilePath w) as (o & w1 & -> & Hp & Ht).
  intros Hin Hf. rewrite <- Hp in Hf.
  repeat case_match; simplify_eq/=;
    destruct Ht as [Ht|Ht]; rewrite Ht in Hin; member Hin.
  all: simplify_eq; try congruence; same_failure.
  all: eexists _, _; split; [done|]; apply relays_intro; by simplify_map_eq.
Qed.

Lemma track_event_failure body w rq e :
  ProviderCall rq ∈ performed (track_event body) w →
  plunk w rq = Throw e →
  ∃ r w', track_event body w = (Ok r, w') ∧ relays e r.
Proof.
  unfold performed, track_event.
  destruct (_ || _); simpl.
  { rewrite drop_all. by intros ?%elem_of_nil. }
  run.
  destruct (readJsonFile_cases accountsFilePath w) as (o & w1 & -> & Hp & Ht).
  intros Hin Hf. rewrite <- Hp in Hf.
  repeat case_match; simplify_eq/=;
    destruct Ht as [Ht|Ht]; rewrite Ht in Hin; member Hin.
  all: simplify_eq; try congruence; same_failure.
  all: eexists _, _; split; [done|]; apply relays_intro; by simplify_map_eq.
Qed.

Lemma check_status_failure body w rq e :
  ProviderCall rq ∈ performed (check_status body) w →
  plunk w rq = Throw e →
  ∃ w', check_status body w
        = (Ok Authentication_Failed, w').
Proof.
  unfold performed, check_status.
  destruct (negb _); simpl.
  { rewrite drop_all. by intros ?%elem_of_nil. }
  run. intros Hin Hf.
  repeat case_match; simplify_eq/=; member Hin; simplify_eq; eauto.
  congruence.
Qed.

(** C1, as the gateway does it.  When a handler has called the provider
    and the call fails with [e]: send-email and track-event answer with
    the provider's status code when [e] carries a response (with a
    non-zero status) and with 500 when it carries none, and put the
    provider's error body, when there is one, under [details];
    check-status answers 401 with a fixed body, whatever the provider
    said. *)
Theorem provider_failure_relayed body w rq e :
  plunk w rq = Throw e →
  (ProviderCall rq ∈ performed (send_email body) w →
   ∃ r w', send_email body w = (Ok r, w') ∧ relays e r)
  ∧ (ProviderCall rq ∈ performed (track_event body) w →
     ∃ r w', track_event body w = (Ok r, w') ∧ relays e r)
  ∧ (ProviderCall rq ∈ performed (check_status body) w →
     ∃ w', check_status body w
           = (Ok Authentication_Failed, w')).
Proof.
  intros Hf. split_and!; intros Hin.
  - by apply (send_email_failure body w rq e).
  - by apply (track_event_failure body w rq e).
  - by apply (check_status_failure body w rq e).
Qed.

Lemma provider_failure_relayed_witness :
  let w := Samples.world0 (Throw Samples.refused) in
  (∃ r w', send_email Samples.mail0 w = (Ok r, w') ∧ relays Samples.refused r)
  ∧ (∃ r w', track_event Samples.track0 w = (Ok r, w')
             ∧ relays Samples.refused r)
  ∧ (∃ w', check_status Samples.key0 w = (Ok Authentication_Failed, w')).
Proof.
  intros w. split_and!.
  - apply (provider_failure_relayed Samples.mail0 w Samples.send_call0
             Samples.refused); [reflexivity|].
    vm_compute. left.
  - apply (provider_failure_relayed Samples.track0 w Samples.track_call0
             Samples.refused); [reflexivity|].
    vm_compute. left.
  - apply (provider_failure_relayed Samples.key0 w Samples.check_call0
             Samples.refused); [reflexivity|].
    vm_compute. left.
Defined.

(** C1, as the specification states it, fails on check-status: the
    provider refuses the key with status 403 and a body, and the gateway
    answers 401. *)
Lemma check_status_masks_provider_status :
  let w := Samples.world0 (Throw Samples.refused) in
  ∃ w', ProviderCall Samples.check_call0 ∈ performed (check_status Samples.key0) w
    ∧ plunk w Samples.check_call0 = Throw Samples.refused
    ∧ check_status Samples.key0 w = (Ok Authentication_Failed, w')
    ∧ res_status Authentication_Failed = 401%Z
    ∧ ¬ relays Samples.refused Authentication_Failed.
Proof.
  intros w. eexists. split_and!.
  - vm_compute. left.
  - reflexivity.
  - reflexivity.
  - reflexivity.
  - intros [H _]. specialize (H ltac:(done)). discriminate H.
Qed.

End GatewayFacts.

(* ===================================================================== *)
(** * Facts about the log viewer                                          *)
(* ===================================================================== *)

Module LogViewerFacts.
Import LogViewer.

(** ** Statistics *)

Lemma length_filter_count (p : EmailLog → bool) logs :
  length (List.filter p logs) = count_if p logs.
Proof.
  induction logs as [|l logs IH]; [done|].
  simpl. destruct (p l); simpl; by rewrite IH.
Qed.

Lemma count_if_split (p : EmailLog → bool) logs :
  count_if p logs + count_if (λ l, negb (p l)) logs = length logs.
Proof.
  induction logs as [|l logs IH]; [done|].
  simpl. destruct (p l); simpl; lia.
Qed.

(** C8.  The four counts are taken over the loaded logs alone: each is
    the number of loaded logs with the status, or the opened flag, in
    question; so opened and unopened add up to the number of loaded
    logs. *)
Theorem stats_counts logs :
  delivered (stats logs) = count_if (λ l, bool_decide (status l = Delivered)) logs
  ∧ failed (stats logs) = count_if (λ l, bool_decide (status l = Failed)) logs
  ∧ opened (stats logs) = count_if (λ l, isOpened l) logs
  ∧ unopened (stats logs) = count_if (λ l, negb (isOpened l)) logs
  ∧ opened (stats logs) + unopened (stats logs) = length logs.
Proof.
  unfold stats. simpl. rewrite !length_filter_count.
  split_and!; try done. apply count_if_split.
Qed.

Example stats_page0 :
  stats Samples.page0 = {| delivered := 1; failed := 1; opened := 1; unopened := 2 |}.
Proof. reflexivity. Qed.

(** ** Export *)

Lemma append_cons c (a b : string) : String c a ++ b = String c (a ++ b).
Proof. reflexivity. Qed.

Lemma append_nil_r (a : string) : a ++ "" = a.
Proof. induction a as [|x a IH]; [done|]. by rewrite append_cons, IH. Qed.

Lemma append_assoc (a b c : string) : (a ++ b) ++ c = a ++ (b ++ c).
Proof. induction a as [|x a IH]; [done|]. by rewrite !append_cons, IH. Qed.

Lemma lines_from_single current s t :
  single_line s = true →
  lines_from current (s ++ t) = lines_from (current ++ s) t.
Proof.
  revert current. induction s as [|c s IH]; intros current Hs.
  { by rewrite append_nil_r. }
  simpl in Hs. apply andb_true_iff in Hs as [Hc Hs].
  apply negb_true_iff in Hc. rewrite append_cons. simpl. rewrite Hc.
  rewrite (IH _ Hs). by rewrite append_assoc.
Qed.

Lemma lines_from_newline current t :
  lines_from current (newline ++ t) = current :: lines_from "" t.
Proof. reflexivity. Qed.

Lemma lines_join (l : list string) :
  l ≠ [] → Forall (λ s, single_line s = true) l →
  lines (Json.join newline l) = l.
Proof.
  unfold lines. intros Hne Hl.
  induction Hl as [|s l Hs Hl IH]; [done|]. clear Hne.
  destruct l as [|s' l].
  { simpl. rewrite <- (append_nil_r s) at 1.
    by rewrite lines_from_single. }
  change (Json.join newline (s :: s' :: l))
    with (s ++ newline ++ Json.join newline (s' :: l)).
  rewrite lines_from_single by done. rewrite lines_from_newline.
  by rewrite IH.
Qed.

(** C9.  With no log loaded the export reports an error and produces no
    file.  With logs loaded it produces one plain-text file and reports
    success; the text is the [to] addresses of the loaded logs joined by
    newline characters, so (addresses being single lines) its lines are
    exactly those addresses, in the order of the page. *)
Theorem handleExport_lines isoNow st :
  (logs st = [] → handleExport isoNow st = [ToastError "No logs to export"])
  ∧ (logs st ≠ [] →
     ∃ filename content msg,
       handleExport isoNow st
       = [Download filename "text/plain" content; ToastSuccess msg]
       ∧ content = Json.join newline (map to (logs st))
       ∧ (Forall (λ l, single_line (to l) = true) (logs st) →
          lines content = map to (logs st))).
Proof.
  unfold handleExport. split.
  - by intros ->.
  - intros Hne. destruct (logs st) as [|l rest] eqn:E; [done|].
    simpl length. cbn [Nat.eqb]. eexists _, _, _. split_and!; try done.
    intros Hl. apply lines_join; [done|]. by apply Forall_fmap.
Qed.

Lemma handleExport_lines_witness :
  handleExport "2024-06-01T12:00:00.000Z" (initial (Some "a1"))
  = [ToastError "No logs to export"]
  ∧ ∃ filename content msg,
      handleExport "2024-06-01T12:00:00.000Z" Samples.viewer0
      = [Download filename "text/plain" content; ToastSuccess msg]
      ∧ lines content = ["ann@example.org"; "bob@example.org"; "cy@example.org"].
Proof.
  split.
  - apply (handleExport_lines "2024-06-01T12:00:00.000Z" (initial (Some "a1"))).
    reflexivity.
  - destruct (handleExport_lines "2024-06-01T12:00:00.000Z" Samples.viewer0)
      as [_ H].
    destruct H as (filename & content & msg & H1 & _ & H3); [discriminate|].
    exists filename, content, msg. split; [exact H1|].
    apply H3. repeat constructor.
Defined.

Example export_viewer0 :
  handleExport "2024-06-01T12:00:00.000Z" Samples.viewer0
  = [Download "analytics-export-2024-06-01.txt" "text/plain"
       ("ann@example.org" ++ newline ++ "bob@example.org" ++ newline
        ++ "cy@example.org");
     ToastSuccess "Exported 3 emails"].
Proof. reflexivity. Qed.

(** ** Paging *)

Lemma fetchLogs_page page st q : Fetch q ∈ fetchLogs page st → q_page q = page.
Proof.
  unfold fetchLogs. destruct (currentAccount st); [|by intros ?%elem_of_nil].
  intros H%list_elem_of_singleton. by injection H as ->.
Qed.

(** C6.  The page-change handler fetches only the page it was asked for,
    and only when that page lies between 1 and [totalPages]; the two
    buttons of the footer, which go through it with the page before and
    the page after (a sum of doubles, exact below 2^53), therefore never
    fetch a page out of these bounds. *)
Theorem handlePageChange_in_bounds newPage st q :
  (Fetch q ∈ handlePageChange newPage st →
   q_page q = newPage ∧ (1 ≤ q_page q ≤ totalPages (pagination st))%Z)
  ∧ (Fetch q ∈ click_previous st →
     q_page q = to_double (page (pagination st) - 1)
     ∧ (1 ≤ q_page q ≤ totalPages (pagination st))%Z)
  ∧ (Fetch q ∈ click_next st →
     q_page q = to_double (page (pagination st) + 1)
     ∧ (1 ≤ q_page q ≤ totalPages (pagination st))%Z).
Proof.
  assert (∀ n, Fetch q ∈ handlePageChange n st →
               q_page q = n ∧ (1 ≤ q_page q ≤ totalPages (pagination st))%Z) as Hh.
  { intros n. unfold handlePageChange.
    destruct (_ && _) eqn:Hb; [|by intros ?%elem_of_nil].
    intros ->%fetchLogs_page. apply andb_true_iff in Hb as [H1 H2].
    apply Z.leb_le in H1, H2. done. }
  split_and!; [apply Hh| |].
  - unfold click_previous. destruct (previous_disabled st);
      [by intros ?%elem_of_nil|apply Hh].
  - unfold click_next. destruct (next_disabled st);
      [by intros ?%elem_of_nil|apply Hh].
Qed.

(** A page within the bounds is fetched, when an account is selected. *)
Lemma handlePageChange_fetches newPage st account :
  currentAccount st = Some account →
  (1 ≤ newPage ≤ totalPages (pagination st))%Z →
  ∃ q, handlePageChange newPage st = [Fetch q] ∧ q_page q = newPage
       ∧ q_accountId q = account.
Proof.
  intros Ha [H1 H2]. unfold handlePageChange, fetchLogs.
  apply Z.leb_le in H1, H2. rewrite H1, H2, Ha. simpl. eauto.
Qed.

(** The fetch that follows a change of account or filter, [fetchLogs(1)],
    and the refresh button do not go through the handler: on a viewer
    that has loaded nothing yet, page 1 is fetched while [totalPages]
    is still 0. *)
Example fetch_on_mount :
  fetchLogs 1 (initial (Some "a1"))
  = [Fetch {| q_accountId := "a1"; q_page := 1; q_limit := 100; q_status := None |}]
  ∧ totalPages (pagination (initial (Some "a1"))) = 0%Z.
Proof. split; reflexivity. Qed.

Lemma handlePageChange_in_bounds_witness :
  let q := {| q_accountId := "a1"; q_page := 3; q_limit := 100; q_status := None |} in
  Fetch q ∈ click_next Samples.viewer0
  ∧ q_page q = 3%Z
  ∧ (1 ≤ q_page q ≤ 3)%Z
  ∧ handlePageChange 4 Samples.viewer0 = []
  ∧ handlePageChange 0 Samples.viewer0 = [].
Proof.
  intros q.
  assert (Fetch q ∈ click_next Samples.viewer0) as Hin by (vm_compute; left).
  destruct (handlePageChange_in_bounds 3 Samples.viewer0 q) as (_ & _ & H).
  destruct (H Hin) as [H1 H2].
  split; [exact Hin|]. split; [exact H1|]. split; [exact H2|].
  split; reflexivity.
Defined.

End LogViewerFacts.

(* ===================================================================== *)
(** * More facts about the gateway                                        *)
(* ===================================================================== *)

Module GatewayMore.
Import Json Gateway GatewayFacts.

(** ** The two helpers *)

(** X1.  A file that is missing, or empty, reads as the empty list.  The
    missing file is created on the way, holding the empty array (when it can
    be written); the empty file is left as it is and nothing is written. *)
Theorem readJsonFile_missing_or_empty p w :
  (∀ e, disk w p = Throw e → is_ENOENT e = true → write_fault w p = None →
     ∃ w', readJsonFile p w = (Ok (VArr []), w')
       ∧ disk w' p = Ok (Json (VArr []))
       ∧ performed (readJsonFile p) w = [WriteFile p (Json (VArr []))])
  ∧ (disk w p = Ok Blank → readJsonFile p w = (Ok (VArr []), w)).
Proof.
  split.
  - intros e Hd He Hw. eexists. split_and!.
    + unfold readJsonFile. run. rewrite Hd, He. simpl. rewrite Hw. done.
    + simpl. by rewrite decide_True.
    + eapply performed_app.
      * unfold readJsonFile. run. rewrite Hd, He. simpl. rewrite Hw. done.
      * done.
  - intros Hd. unfold readJsonFile. run. by rewrite Hd.
Qed.

Lemma readJsonFile_missing_or_empty_witness :
  let gone := {| message := "ENOENT: no such file or directory";
                 code := Some "ENOENT"; response := None |} in
  let w := store accountsFilePath Blank (Samples.world0 (Ok Samples.accepted)) in
  let w0 := {| disk := λ _, Throw gone; write_fault := λ _, None;
               write_damage := write_damage w; plunk := plunk w;
               uuid := uuid w; clock := clock w;
               number_text := number_text w; trace := [] |} in
  (∃ w', readJsonFile subscribersFilePath w0 = (Ok (VArr []), w')
         ∧ disk w' subscribersFilePath = Ok (Json (VArr [])))
  ∧ readJsonFile accountsFilePath w = (Ok (VArr []), w).
Proof.
  intros gone w w0. split.
  - destruct (readJsonFile_missing_or_empty subscribersFilePath w0) as [H _].
    destruct (H gone) as (w' & H1 & H2 & _); [reflexivity..|].
    exists w'. split; [exact H1|exact H2].
  - apply (readJsonFile_missing_or_empty accountsFilePath w). reflexivity.
Defined.

(** A read error other than a missing file, and a text that is not JSON,
    make [readJsonFile] throw that very error; nothing is written. *)
Lemma readJsonFile_rethrows p w e :
  is_ENOENT e = false →
  disk w p = Throw e ∨ disk w p = Ok (Garbled e) →
  readJsonFile p w = (Throw e, w).
Proof.
  intros He [Hd|Hd]; unfold readJsonFile; run; rewrite Hd; simpl; by rewrite He.
Qed.

(** What [writeJsonFile] has written, [readJsonFile] reads back. *)
Lemma write_then_read p v w w' :
  writeJsonFile p v w = (Ok (), w') →
  readJsonFile p w' = (Ok v, w').
Proof.
  unfold writeJsonFile, writeFile. destruct (write_fault w p); [done|].
  intros [= <-]. unfold readJsonFile. run. by rewrite decide_True.
Qed.

(** ** Runs of the account handlers on a file that stands for a list *)

Lemma stored_rewritten p l w : stored (rewritten p l w) p = Some l.
Proof. apply stored_written. Qed.

Lemma write_fault_rewritten p l w : write_fault (rewritten p l w) = write_fault w.
Proof. unfold rewritten. simpl. apply write_fault_after_read. Qed.

Lemma disk_rewritten_ne p q l w : q ≠ p → disk (rewritten p l w) q = disk w q.
Proof.
  intros Hq. unfold rewritten. simpl. rewrite decide_False by done.
  by apply disk_after_read_ne.
Qed.

Lemma writeJsonFile_after_read p l w :
  write_fault w p = None →
  writeJsonFile p (VArr l) (after_read p w) = (Ok (), rewritten p l w).
Proof.
  intros Hw. unfold writeJsonFile, writeFile.
  by rewrite write_fault_after_read, Hw.
Qed.

Lemma trace_after_read p w :
  ∃ evs, trace (after_read p w) = (trace w ++ evs)%list ∧ calls evs = [].
Proof.
  unfold after_read. destruct (disk w p).
  - exists []. by rewrite app_nil_r.
  - by eexists [_].
Qed.

Lemma get_accounts_run w l :
  stored w accountsFilePath = Some l →
  write_fault w accountsFilePath = None →
  get_accounts w = (Ok (json 200 (VArr l)), after_read accountsFilePath w).
Proof.
  intros Hs Hw. unfold get_accounts. apply run_try_ok.
  erewrite run_bind by (by apply readJsonFile_stored). done.
Qed.

Lemma post_accounts_run body w l :
  stored w accountsFilePath = Some l →
  write_fault w accountsFilePath = None →
  post_accounts body w
  = (Ok (json 201 (body_value body)),
     rewritten accountsFilePath (l ++ [body_value body]) w).
Proof.
  intros Hs Hw. unfold post_accounts. apply run_try_ok.
  erewrite run_bind by (by apply readJsonFile_stored). simpl.
  erewrite run_lift by done.
  erewrite run_bind by (by apply writeJsonFile_after_read). done.
Qed.

Lemma delete_account_run id w l :
  stored w accountsFilePath = Some l →
  Forall not_null l →
  write_fault w accountsFilePath = None →
  delete_account id w
  = (Ok (send 204),
     rewritten accountsFilePath (List.filter (λ a, negb (account_has_id id a)) l) w).
Proof.
  intros Hs Hn Hw. unfold delete_account. apply run_try_ok.
  erewrite run_bind by (by apply readJsonFile_stored). simpl.
  erewrite run_lift by done.
  erewrite run_lift by (apply array_filter_pure, other_id_pure, Hn).
  erewrite run_bind by (by apply writeJsonFile_after_read). done.
Qed.

(** The list [accounts.map] returns, and the value [updated] ends with. *)
Lemma array_map_put id body l u :
  Forall not_null l →
  array_map (merge_account id body) l u
  = Ok (map (put_entry id body) l,
        fold_left (λ u acc, if account_has_id id acc
                            then VObj (body ∪ own_props acc) else u) l u).
Proof.
  intros Hn. revert u. induction Hn as [|a l Ha _ IH]; intros u; [done|].
  simpl. unfold merge_account at 1. rewrite (get_prop_not_null _ _ Ha). simpl.
  fold (account_has_id id a). unfold put_entry at 1.
  destruct (account_has_id id a); simpl; by rewrite IH.
Qed.

Lemma put_account_run id body w l :
  stored w accountsFilePath = Some l →
  Forall not_null l →
  write_fault w accountsFilePath = None →
  put_account id body w
  = (Ok (json 200
           (or_else
              (Some (fold_left (λ u acc, if account_has_id id acc
                                         then VObj (body ∪ own_props acc) else u)
                       l VNull))
              (VObj ∅))),
     rewritten accountsFilePath (map (put_entry id body) l) w).
Proof.
  intros Hs Hn Hw. unfold put_account. apply run_try_ok.
  erewrite run_bind by (by apply readJsonFile_stored). simpl.
  erewrite run_lift by done.
  erewrite run_lift by (by apply array_map_put). simpl.
  erewrite run_bind by (by apply writeJsonFile_after_read). done.
Qed.

Lemma filter_not_null id l :
  Forall not_null l →
  Forall not_null (List.filter (λ a, negb (account_has_id id a)) l).
Proof.
  induction 1 as [|a l Ha _ IH]; [done|]. simpl.
  destruct (negb _); [by constructor|done].
Qed.

Lemma put_entry_not_null id body a : not_null a → not_null (put_entry id body a).
Proof. unfold put_entry. by destruct (account_has_id id a). Qed.

Lemma disk_spoil_log p d ev w : disk (spoil p d (log ev w)) = disk (spoil p d w).
Proof. by destruct d. Qed.

(** While the file cannot be written, [readJsonFile] either returns what
    the file holds and leaves the world alone, or throws: after the read
    itself failed, or after its own write did. *)
Lemma readJsonFile_unwritable p w e :
  write_fault w p = Some e →
  ∃ o w', readJsonFile p w = (o, w')
    ∧ match o with
      | Ok _ => w' = w
      | Throw _ => disk w' = disk w
                   ∨ disk w' = disk (spoil p (write_damage w p) w)
      end.
Proof.
  intros Hw. unfold readJsonFile. run.
  destruct (disk w p) as [[|v|e']|e']; simpl.
  - by eexists _, _.
  - by eexists _, _.
  - destruct (is_ENOENT e'); simpl.
    + rewrite Hw. simpl. eexists _, _. split; [done|]. right.
      apply disk_spoil_log.
    + eexists _, _. split; [done|]. by left.
  - destruct (is_ENOENT e'); simpl.
    + rewrite Hw. simpl. eexists _, _. split; [done|]. right.
      apply disk_spoil_log.
    + eexists _, _. split; [done|]. by left.
Qed.

(** ** GET and POST /api/accounts *)

(** X2.  GET /api/accounts answers 200 with whatever JSON value the file
    holds, an array or not, and with the empty array for an empty file; it
    performs nothing then.  A read error other than a missing file, or a
    text that is not JSON, is answered with 500 and the body
    [{error: "DB Error"}]. *)
Theorem get_accounts_relays w :
  match disk w accountsFilePath with
  | Ok (Json v) => get_accounts w = (Ok (json 200 v), w)
  | Ok Blank => get_accounts w = (Ok (json 200 (VArr [])), w)
  | Ok (Garbled e) | Throw e =>
      is_ENOENT e = false → get_accounts w = (Ok DB_Error, w)
  end.
Proof.
  unfold get_accounts, readJsonFile. run.
  destruct (disk w accountsFilePath) as [[|v|e]|e]; simpl; try done.
  - by intros ->.
  - by intros ->.
Qed.

Lemma get_accounts_relays_witness :
  let w := Samples.world0 (Ok Samples.accepted) in
  let denied := {| message := "EACCES: permission denied";
                   code := Some "EACCES"; response := None |} in
  let w0 := {| disk := λ _, Throw denied; write_fault := write_fault w;
               write_damage := write_damage w; plunk := plunk w;
               uuid := uuid w; clock := clock w;
               number_text := number_text w; trace := [] |} in
  get_accounts w = (Ok (json 200 (VArr Samples.accounts0)), w)
  ∧ get_accounts w0 = (Ok DB_Error, w0).
Proof.
  intros w denied w0. split.
  - exact (get_accounts_relays w).
  - apply (get_accounts_relays w0). reflexivity.
Defined.

(** X3.  POST /api/accounts appends the request body, the object or the
    array that it is, to the stored list and answers 201 with that body.
    It looks at no field of the body: an account whose id is already
    stored is appended like any other.  The subscriber file is not
    touched. *)
Theorem post_accounts_appends body w l :
  stored w accountsFilePath = Some l →
  write_fault w accountsFilePath = None →
  ∃ w', post_accounts body w = (Ok (json 201 (body_value body)), w')
    ∧ stored w' accountsFilePath = Some (l ++ [body_value body])%list
    ∧ disk w' subscribersFilePath = disk w subscribersFilePath.
Proof.
  intros Hs Hw. eexists. split; [by apply post_accounts_run|].
  split; [apply stored_rewritten|]. by apply disk_rewritten_ne.
Qed.

Lemma post_accounts_appends_witness :
  let w := Samples.world0 (Ok Samples.accepted) in
  let twin := VObj {[ "id" := VStr "a1"; "secretKey" := VStr "sk_9" ]} in
  let pair := VArr [VNum 1; VNum 2] in
  (∃ w', post_accounts
           (ObjectBody {[ "id" := VStr "a1"; "secretKey" := VStr "sk_9" ]}) w
         = (Ok (json 201 twin), w')
     ∧ stored w' accountsFilePath = Some (Samples.accounts0 ++ [twin])%list)
  ∧ (∃ w', post_accounts (ArrayBody [VNum 1; VNum 2]) w
           = (Ok (json 201 pair), w')
       ∧ stored w' accountsFilePath = Some (Samples.accounts0 ++ [pair])%list).
Proof.
  intros w twin pair. split.
  - destruct (post_accounts_appends
                (ObjectBody {[ "id" := VStr "a1"; "secretKey" := VStr "sk_9" ]})
                w Samples.accounts0) as (w' & H1 & H2 & _);
      [reflexivity|reflexivity|].
    exists w'. split; [exact H1|exact H2].
  - destruct (post_accounts_appends (ArrayBody [VNum 1; VNum 2])
                w Samples.accounts0) as (w' & H1 & H2 & _);
      [reflexivity|reflexivity|].
    exists w'. split; [exact H1|exact H2].
Defined.

(** X4.  Creating an account and then fetching the accounts returns the
    stored list with the request body, object or array, at its end. *)
Theorem create_then_fetch body w l :
  stored w accountsFilePath = Some l →
  write_fault w accountsFilePath = None →
  ∃ w', post_accounts body w = (Ok (json 201 (body_value body)), w')
    ∧ get_accounts w' = (Ok (json 200 (VArr (l ++ [body_value body]))), w').
Proof.
  intros Hs Hw. eexists. split; [by apply post_accounts_run|].
  unfold get_accounts, readJsonFile. run. done.
Qed.

Lemma create_then_fetch_witness :
  let w := Samples.world0 (Ok Samples.accepted) in
  let body := {[ "id" := VStr "a3"; "secretKey" := VStr "sk_3" ]} in
  ∃ w', post_accounts (ObjectBody body) w = (Ok (json 201 (VObj body)), w')
    ∧ get_accounts w'
      = (Ok (json 200 (VArr (Samples.accounts0 ++ [VObj body]))), w').
Proof.
  intros w body.
  apply (create_then_fetch (ObjectBody body) w Samples.accounts0); reflexivity.
Defined.

(** X5.  When the account file cannot be written, POST, PUT and DELETE on
    the accounts answer 500 with [{error: "DB Error"}] whatever the file
    holds.  The subscriber file is left as it was; the account file is
    left as it was when the handler gave up before writing, and otherwise
    as the rejected write leaves it: as it was, empty, or cut short. *)
Theorem accounts_write_failure id body b w e :
  write_fault w accountsFilePath = Some e →
  let left w' :=
    disk w' = disk w
    ∨ disk w' = disk (spoil accountsFilePath (write_damage w accountsFilePath) w) in
  (∃ w', post_accounts b w = (Ok DB_Error, w') ∧ left w')
  ∧ (∃ w', put_account id body w = (Ok DB_Error, w') ∧ left w')
  ∧ (∃ w', delete_account id w = (Ok DB_Error, w') ∧ left w').
Proof.
  intros Hw left.
  destruct (readJsonFile_unwritable accountsFilePath w e Hw)
    as (o & w1 & Hread & Hd).
  unfold post_accounts, put_account, delete_account, try_catch, mbind, M_bind, bind.
  rewrite Hread. unfold lift, writeJsonFile, writeFile.
  split_and!; (destruct o as [accounts|e1]; simpl; [subst w1|by eauto]).
  - destruct (as_array _ _ accounts); simpl; [|by unfold left; eauto].
    rewrite Hw. simpl. eexists. split; [done|]. right. apply disk_spoil_log.
  - destruct (as_array _ _ accounts) as [items|]; simpl; [|by unfold left; eauto].
    destruct (array_map _ items VNull) as [[l' u']|]; simpl;
      [|by unfold left; eauto].
    rewrite Hw. simpl. eexists. split; [done|]. right. apply disk_spoil_log.
  - destruct (as_array _ _ accounts) as [items|]; simpl; [|by unfold left; eauto].
    destruct (array_filter _ items); simpl; [|by unfold left; eauto].
    rewrite Hw. simpl. eexists. split; [done|]. right. apply disk_spoil_log.
Qed.

Lemma accounts_write_failure_witness :
  let w := Samples.world0 (Ok Samples.accepted) in
  let full := {| message := "ENOSPC: no space left on device";
                 code := Some "ENOSPC"; response := None |} in
  let w0 := {| disk := disk w; write_fault := λ _, Some full;
               write_damage := λ _, Emptied; plunk := plunk w;
               uuid := uuid w; clock := clock w;
               number_text := number_text w; trace := [] |} in
  ∃ w', delete_account "a1" w0 = (Ok DB_Error, w')
    ∧ (disk w' = disk w0 ∨ disk w' = disk (store accountsFilePath Blank w0)).
Proof.
  intros w full w0.
  apply (accounts_write_failure "a1" ∅ (ObjectBody ∅) w0 full). reflexivity.
Defined.

(** The file is indeed lost: after the rejected write of the witness the
    account file is empty. *)
Example write_failure_empties_file :
  let w := Samples.world0 (Ok Samples.accepted) in
  let full := {| message := "ENOSPC: no space left on device";
                 code := Some "ENOSPC"; response := None |} in
  let w0 := {| disk := disk w; write_fault := λ _, Some full;
               write_damage := λ _, Emptied; plunk := plunk w;
               uuid := uuid w; clock := clock w;
               number_text := number_text w; trace := [] |} in
  disk (delete_account "a1" w0).2 accountsFilePath = Ok Blank
  ∧ stored w0 accountsFilePath = Some Samples.accounts0.
Proof. split; reflexivity. Qed.





(** ** Every request is answered *)

(** X6.  No exception escapes a handler: whatever the files hold, whatever
    the provider answers and whether or not the files can be written, each
    of the eight handlers ends with a reply. *)
Theorem no_exception_escapes id body b w :
  (∃ r, (get_accounts w).1 = Ok r)
  ∧ (∃ r, (post_accounts b w).1 = Ok r)
  ∧ (∃ r, (put_account id body w).1 = Ok r)
  ∧ (∃ r, (delete_account id w).1 = Ok r)
  ∧ (∃ r, (check_status body w).1 = Ok r)
  ∧ (∃ r, (post_subscribers body w).1 = Ok r)
  ∧ (∃ r, (send_email body w).1 = Ok r)
  ∧ (∃ r, (track_event body w).1 = Ok r).
Proof.
  assert (∀ m, settles m → ∃ r, (m w).1 = Ok r) as Hs by (intros m Hm; apply Hm).
  unfold get_accounts, post_accounts, put_account, delete_account, check_status,
    post_subscribers, send_email, track_event.
  split_and!; apply Hs; settles_steps.
Qed.


(** The condition is needed: a write that is rejected with the text cut
    short leaves a file that is not JSON. *)
Example cut_short_write_breaks_soundness :
  let w := Samples.world0 (Ok Samples.accepted) in
  let full := {| message := "ENOSPC: no space left on device";
                 code := Some "ENOSPC"; response := None |} in
  let cut := {| message := "Unexpected end of JSON input";
                code := None; response := None |} in
  let w0 := {| disk := disk w; write_fault := λ _, Some full;
               write_damage := λ _, CutShort cut; plunk := plunk w;
               uuid := uuid w; clock := clock w;
               number_text := number_text w; trace := [] |} in
  sound_disk w0 ∧ ¬ sound_disk (delete_account "a1" w0).2.
Proof.
  intros w full cut w0. split.
  - intros [|]; simpl; repeat constructor; discriminate.
  - intros H. apply (H accountsFilePath).
Qed.


(** ** DELETE and PUT, repeated and combined *)

Lemma filter_filter_id id l :
  List.filter (λ a, negb (account_has_id id a))
    (List.filter (λ a, negb (account_has_id id a)) l)
  = List.filter (λ a, negb (account_has_id id a)) l.
Proof.
  induction l as [|a l IH]; [done|]. simpl.
  destruct (negb (account_has_id id a)) eqn:Ha; [|done]. simpl. by rewrite Ha, IH.
Qed.

Lemma filter_none_left id l :
  Forall (λ a, account_has_id id a = false)
    (List.filter (λ a, negb (account_has_id id a)) l).
Proof.
  induction l as [|a l IH]; [done|]. simpl.
  destruct (account_has_id id a) eqn:Ha; simpl; [done|by constructor].
Qed.

(** X8.  DELETE is idempotent.  After a DELETE of an id no stored account
    has that id, and a second DELETE of the same id answers 204 again and
    leaves the stored list as the first one left it. *)
Theorem delete_twice id w l :
  stored w accountsFilePath = Some l →
  Forall not_null l →
  write_fault w accountsFilePath = None →
  ∃ w1 w2 kept,
    delete_account id w = (Ok (send 204), w1)
    ∧ stored w1 accountsFilePath = Some kept
    ∧ Forall (λ a, account_has_id id a = false) kept
    ∧ delete_account id w1 = (Ok (send 204), w2)
    ∧ stored w2 accountsFilePath = Some kept.
Proof.
  intros Hs Hn Hw.
  pose proof (delete_account_run id w l Hs Hn Hw) as H1.
  pose proof (delete_account_run id _ _
                (stored_rewritten accountsFilePath _ w) (filter_not_null id l Hn))
    as H2.
  rewrite write_fault_rewritten, filter_filter_id in H2. specialize (H2 Hw).
  eexists _, _, _.
  split_and!; [exact H1|apply stored_rewritten|apply filter_none_left
              |exact H2|apply stored_rewritten].
Qed.

Lemma delete_twice_witness :
  let w := Samples.world0 (Ok Samples.accepted) in
  ∃ w1 w2 kept,
    delete_account "a1" w = (Ok (send 204), w1)
    ∧ stored w1 accountsFilePath = Some kept
    ∧ delete_account "a1" w1 = (Ok (send 204), w2)
    ∧ stored w2 accountsFilePath = Some kept.
Proof.
  intros w.
  destruct (delete_twice "a1" w Samples.accounts0)
    as (w1 & w2 & kept & H1 & H2 & _ & H4 & H5).
  - reflexivity.
  - repeat constructor; discriminate.
  - reflexivity.
  - exists w1, w2, kept. split; [exact H1|]. split; [exact H2|].
    split; [exact H4|exact H5].
Defined.

Lemma put_entry_twice id body a :
  put_entry id body (put_entry id body a) = put_entry id body a.
Proof.
  unfold put_entry at 2 3. destruct (account_has_id id a) eqn:Ha; unfold put_entry.
  - destruct (account_has_id id (VObj _)); [|done]. simpl.
    by rewrite (assoc_L (∪)), (idemp_L (∪)).
  - by rewrite Ha.
Qed.

(** X9.  PUT is idempotent on the store: the same PUT a second time
    answers 200 again and leaves the stored list as the first one left it,
    also when the body changes the id of the account. *)
Theorem put_twice id body w l :
  stored w accountsFilePath = Some l →
  Forall not_null l →
  write_fault w accountsFilePath = None →
  ∃ r1 r2 w1 w2 l',
    put_account id body w = (Ok r1, w1) ∧ res_status r1 = 200%Z
    ∧ stored w1 accountsFilePath = Some l'
    ∧ put_account id body w1 = (Ok r2, w2) ∧ res_status r2 = 200%Z
    ∧ stored w2 accountsFilePath = Some l'.
Proof.
  intros Hs Hn Hw.
  assert (Forall not_null (map (put_entry id body) l)) as Hn'.
  { apply Forall_fmap. eapply Forall_impl; [exact Hn|].
    intros a. apply put_entry_not_null. }
  assert (map (put_entry id body) (map (put_entry id body) l)
          = map (put_entry id body) l) as Hsame.
  { rewrite map_map. apply map_ext. intros a. apply put_entry_twice. }
  pose proof (put_account_run id body w l Hs Hn Hw) as H1.
  pose proof (put_account_run id body _ _
                (stored_rewritten accountsFilePath _ w) Hn') as H2.
  rewrite write_fault_rewritten, Hsame in H2. specialize (H2 Hw).
  eexists _, _, _, _, _.
  split_and!; [exact H1|done|apply stored_rewritten
              |exact H2|done|apply stored_rewritten].
Qed.

Lemma put_twice_witness :
  let w := Samples.world0 (Ok Samples.accepted) in
  let body := {[ "id" := VStr "a9"; "name" := VStr "Moved" ]} in
  ∃ r1 r2 w1 w2 l',
    put_account "a1" body w = (Ok r1, w1)
    ∧ stored w1 accountsFilePath = Some l'
    ∧ put_account "a1" body w1 = (Ok r2, w2)
    ∧ stored w2 accountsFilePath = Some l'.
Proof.
  intros w body.
  destruct (put_twice "a1" body w Samples.accounts0)
    as (r1 & r2 & w1 & w2 & l' & H1 & _ & H3 & H4 & _ & H6).
  - reflexivity.
  - repeat constructor; discriminate.
  - reflexivity.
  - exists r1, r2, w1, w2, l'. split; [exact H1|]. split; [exact H3|].
    split; [exact H4|exact H6].
Defined.

Lemma fold_updated_no_match id body l u :
  Forall (λ a, account_has_id id a = false) l →
  fold_left (λ u acc, if account_has_id id acc
                      then VObj (body ∪ own_props acc) else u) l u = u.
Proof.
  intros Hl. revert u. induction Hl as [|a l Ha _ IH]; intros u; [done|].
  simpl. by rewrite Ha, IH.
Qed.

(** X10.  When several stored accounts have the requested id, PUT merges
    the body into each of them and answers with the last one it merged. *)
Theorem put_replies_last_match id body w before acc after :
  stored w accountsFilePath = Some (before ++ acc :: after)%list →
  Forall not_null (before ++ acc :: after)%list →
  write_fault w accountsFilePath = None →
  account_has_id id acc = true →
  Forall (λ a, account_has_id id a = false) after →
  ∃ w', put_account id body w = (Ok (json 200 (VObj (body ∪ own_props acc))), w')
    ∧ stored w' accountsFilePath
      = Some (map (put_entry id body) before
              ++ VObj (body ∪ own_props acc) :: after)%list.
Proof.
  intros Hs Hn Hw Hacc Hafter. eexists. split.
  - rewrite (put_account_run id body w _ Hs Hn Hw).
    rewrite fold_left_app. simpl. rewrite Hacc.
    by rewrite (fold_updated_no_match _ _ _ _ Hafter).
  - rewrite stored_rewritten. rewrite map_app. simpl.
    unfold put_entry at 2. rewrite Hacc. do 3 f_equal.
    clear -Hafter. induction Hafter as [|a l Ha _ IH]; [done|].
    simpl. unfold put_entry at 1. by rewrite Ha, IH.
Qed.

Lemma put_replies_last_match_witness :
  let twin := Samples.account "a1" "sk_9" "Twin" in
  let w := store accountsFilePath (Json (VArr (Samples.accounts0 ++ [twin])))
             (Samples.world0 (Ok Samples.accepted)) in
  let body := {[ "name" := VStr "Renamed" ]} in
  ∃ w', put_account "a1" body w
        = (Ok (json 200 (VObj (body ∪ own_props twin))), w').
Proof.
  intros twin w body.
  destruct (put_replies_last_match "a1" body w Samples.accounts0 twin [])
    as (w' & H1 & _).
  - reflexivity.
  - repeat constructor; discriminate.
  - reflexivity.
  - reflexivity.
  - constructor.
  - exists w'. exact H1.
Defined.

(** X11.  Creating an account under an id that no stored account has, and
    then deleting that id, gives back the stored list as it was. *)
Theorem post_then_delete id body w l :
  stored w accountsFilePath = Some l →
  Forall not_null l →
  write_fault w accountsFilePath = None →
  Forall (λ a, account_has_id id a = false) l →
  body !! "id" = Some (VStr id) →
  ∃ w1 w2,
    post_accounts (ObjectBody body) w = (Ok (json 201 (VObj body)), w1)
    ∧ delete_account id w1 = (Ok (send 204), w2)
    ∧ stored w2 accountsFilePath = Some l.
Proof.
  intros Hs Hn Hw Hl Hid. eexists _, _. split_and!.
  - by apply (post_accounts_run (ObjectBody body)).
  - apply delete_account_run.
    + apply stored_rewritten.
    + apply Forall_app. split; [done|]. by repeat constructor.
    + by rewrite write_fault_rewritten.
  - rewrite stored_rewritten. f_equal. rewrite List.filter_app. simpl.
    unfold account_has_id at 2. simpl. rewrite Hid. simpl.
    rewrite String.eqb_refl. simpl. rewrite app_nil_r.
    by apply filter_no_match.
Qed.

Lemma post_then_delete_witness :
  let w := Samples.world0 (Ok Samples.accepted) in
  let body := {[ "id" := VStr "a3"; "secretKey" := VStr "sk_3" ]} in
  ∃ w1 w2,
    post_accounts (ObjectBody body) w = (Ok (json 201 (VObj body)), w1)
    ∧ delete_account "a3" w1 = (Ok (send 204), w2)
    ∧ stored w2 accountsFilePath = Some Samples.accounts0.
Proof.
  intros w body.
  apply (post_then_delete "a3" body w Samples.accounts0).
  - reflexivity.
  - repeat constructor; discriminate.
  - reflexivity.
  - repeat constructor.
  - reflexivity.
Defined.

(** ** POST /api/subscribers, repeated *)

Lemma uuid_after_read p w : uuid (after_read p w) = uuid w.
Proof. unfold after_read. by destruct (disk w p). Qed.

Lemma clock_after_read p w : clock (after_read p w) = clock w.
Proof. unfold after_read. by destruct (disk w p). Qed.

Lemma post_subscribers_fresh_run body email w l :
  body !! "email" = Some email →
  truthy email = true →
  stored w subscribersFilePath = Some l →
  Forall not_null l →
  write_fault w subscribersFilePath = None →
  existsb (subscriber_has_email email) l = false →
  post_subscribers body w
  = (Ok (json 200 (VObj {[ "success" := VBool true;
                           "subscriber" := new_subscriber email w ]})),
     rewritten subscribersFilePath (l ++ [new_subscriber email w]) w).
Proof.
  intros He Ht Hs Hn Hw Hex. unfold post_subscribers. rewrite He. simpl.
  rewrite Ht. simpl. apply run_try_ok.
  erewrite run_bind by (by apply readJsonFile_stored). simpl.
  erewrite run_lift by done.
  erewrite run_lift by (apply array_find_pure, has_email_pure, Hn).
  rewrite (find_existsb_false _ _ Hex). simpl.
  erewrite (run_bind randomUUID) by reflexivity.
  erewrite (run_bind new_Date) by reflexivity.
  rewrite uuid_after_read, clock_after_read. fold (new_subscriber email w).
  erewrite run_bind by (by apply writeJsonFile_after_read). done.
Qed.



Lemma strict_eq_scalar a b : strict_eq a b = true → a = b ∧ scalar b = true.
Proof.
  destruct a, b; simpl; try done.
  - by intros ->%Bool.eqb_prop.
  - by intros ->%Z.eqb_eq.
  - by intros ->%String.eqb_eq.
Qed.



(** X13.  The duplicate check compares with [===]: an email that is an
    array or an object is equal to no stored email, so such a request is
    never answered 409 and is appended, whatever the list holds. *)
Theorem structured_email_never_duplicate body email w l :
  body !! "email" = Some email →
  scalar email = false →
  stored w subscribersFilePath = Some l →
  Forall not_null l →
  write_fault w subscribersFilePath = None →
  ∃ r w', post_subscribers body w = (Ok r, w') ∧ res_status r = 200%Z
    ∧ stored w' subscribersFilePath = Some (l ++ [new_subscriber email w])%list.
Proof.
  intros He Hsc Hs Hn Hw. eexists _, _. split_and!.
  - eapply post_subscribers_fresh_run; try done.
    + by destruct email.
    + clear -Hsc. induction l as [|s l IH]; [done|]. simpl. rewrite IH.
      unfold subscriber_has_email. destruct (prop_of "email" s) as [v|]; [|done].
      simpl. destruct v, email; done.
  - done.
  - apply stored_rewritten.
Qed.

Lemma structured_email_never_duplicate_witness :
  let email := VArr [VStr "ann@example.org"] in
  let twin := VObj {[ "id" := VStr "u-1"; "email" := email ]} in
  let w := store subscribersFilePath (Json (VArr [twin]))
             (Samples.world0 (Ok Samples.accepted)) in
  ∃ r w', post_subscribers {[ "email" := email ]} w = (Ok r, w')
    ∧ res_status r = 200%Z
    ∧ stored w' subscribersFilePath = Some [twin; new_subscriber email w].
Proof.
  intros email twin w.
  apply (structured_email_never_duplicate {[ "email" := email ]} email w [twin]).
  - reflexivity.
  - reflexivity.
  - reflexivity.
  - repeat constructor; discriminate.
  - reflexivity.
Defined.




(** ** The proxy handlers: account lookup and payloads *)

Lemma calls_app evs1 evs2 : calls (evs1 ++ evs2) = (calls evs1 ++ calls evs2)%list.
Proof. apply omap_app. Qed.

Lemma performed_after_read {A} (m : M A) p w o :
  m w = (o, after_read p w) → calls (performed m w) = [].
Proof.
  intros H. destruct (trace_after_read p w) as (evs & Ht & Hc).
  by rewrite (performed_app m w o _ evs H Ht).
Qed.

(** X15.  When no stored account has the request's [accountId], send-email
    and track-event answer 404 with [{error: "Account not found"}] and do
    not call the provider. *)
Theorem proxy_account_not_found body w l :
  truthy_u (body !! "accountId") = true →
  stored w accountsFilePath = Some l →
  Forall not_null l →
  write_fault w accountsFilePath = None →
  List.find (λ a, strict_eq_u (prop_of "id" a) (body !! "accountId")) l = None →
  (truthy_u (body !! "to") = true → truthy_u (body !! "subject") = true →
   truthy_u (body !! "content") = true →
   (send_email body w).1 = Ok Account_not_found
   ∧ calls (performed (send_email body) w) = [])
  ∧ (truthy_u (body !! "event") = true → truthy_u (body !! "email") = true →
     (track_event body w).1 = Ok Account_not_found
     ∧ calls (performed (track_event body) w) = []).
Proof.
  intros Ha Hs Hn Hw Hfind. split.
  - intros Hto Hsu Hco.
    assert (send_email body w = (Ok Account_not_found, after_read accountsFilePath w))
      as Hrun.
    { unfold send_email. rewrite Ha, Hto, Hsu, Hco. cbn [negb orb].
      apply run_try_ok.
      erewrite run_bind by (by apply readJsonFile_stored). simpl.
      erewrite run_lift by done.
      erewrite run_lift by (apply array_find_pure, has_id_pure, Hn).
      by rewrite Hfind. }
    split; [by rewrite Hrun|by eapply performed_after_read].
  - intros Hev Hem.
    assert (track_event body w = (Ok Account_not_found, after_read accountsFilePath w))
      as Hrun.
    { unfold track_event. rewrite Ha, Hev, Hem. cbn [negb orb].
      apply run_try_ok.
      erewrite run_bind by (by apply readJsonFile_stored). simpl.
      erewrite run_lift by done.
      erewrite run_lift by (apply array_find_pure, has_id_pure, Hn).
      by rewrite Hfind. }
    split; [by rewrite Hrun|by eapply performed_after_read].
Qed.

Lemma proxy_account_not_found_witness :
  let w := Samples.world0 (Ok Samples.accepted) in
  (send_email (<["accountId" := VStr "zz"]> Samples.mail0) w).1 = Ok Account_not_found
  ∧ (track_event (<["accountId" := VStr "zz"]> Samples.track0) w).1
    = Ok Account_not_found.
Proof.
  intros w.
  assert (Forall not_null Samples.accounts0) as Hn
    by (repeat constructor; discriminate).
  split.
  - apply (proxy_account_not_found (<["accountId" := VStr "zz"]> Samples.mail0) w
             Samples.accounts0); [reflexivity|reflexivity|exact Hn|reflexivity..].
  - apply (proxy_account_not_found (<["accountId" := VStr "zz"]> Samples.track0) w
             Samples.accounts0); [reflexivity|reflexivity|exact Hn|reflexivity..].
Defined.

(** X16.  A [from] that counts as true and is not a string (a number, the
    value [true], an array, an object) makes send-email answer 500 with
    [error: "Failed to send email"]: the call of [from.trim()] throws inside
    the try block, after the account was found and before the provider is
    called. *)
Theorem send_email_from_not_a_string body w l account f :
  truthy_u (body !! "accountId") = true →
  truthy_u (body !! "to") = true →
  truthy_u (body !! "subject") = true →
  truthy_u (body !! "content") = true →
  body !! "from" = Some f → truthy f = true → (∀ s, f ≠ VStr s) →
  stored w accountsFilePath = Some l →
  Forall not_null l →
  List.find (λ a, strict_eq_u (prop_of "id" a) (body !! "accountId")) l
    = Some account →
  ∃ r w' props,
    send_email body w = (Ok r, w')
    ∧ res_status r = 500%Z
    ∧ res_body r = Some (VObj props)
    ∧ props !! "error" = Some (VStr "Failed to send email")
    ∧ calls (performed (send_email body) w) = [].
Proof.
  intros Ha Hto Hsu Hco Hf Ht Hns Hs Hn Hfind.
  pose proof (find_some _ _ Hfind) as [Hin Hid].
  assert (∃ props, account = VObj props) as [props ->].
  { apply truthy_u_Some in Ha as (v & Hv & _). rewrite Hv in Hid.
    by apply strict_eq_u_Some, prop_of_Some_obj in Hid. }
  assert (∃ e, send_payload (body !! "to") (body !! "subject") (body !! "content")
                 (body !! "from") = Throw e ∧ response e = None) as (e & He & Hr).
  { unfold send_payload. rewrite Hf, Ht.
    destruct f; simpl in *; try done; try (eexists; split; done).
    by destruct (Hns s). }
  assert (send_email body w
          = (Ok (json (error_status e)
                   (VObj {[ "error" := VStr "Failed to send email";
                            "details" := error_detail e ]})),
             log (ConsoleError "Plunk Error:" (error_detail e)) w)) as Hrun.
  { unfold send_email. rewrite Ha, Hto, Hsu, Hco. cbn [negb orb].
    unfold try_catch.
    erewrite run_bind; last first.
    { eapply readJsonFile_nonempty; [done|]. intros ->. destruct Hin. }
    simpl. erewrite run_lift by done.
    erewrite run_lift by (apply array_find_pure, has_id_pure, Hn).
    rewrite Hfind. simpl. rewrite He. done. }
  eexists _, _, _. split_and!; [exact Hrun| |done|by simplify_map_eq|].
  - simpl. unfold error_status. by rewrite Hr.
  - by erewrite performed_app by (exact Hrun || done).
Qed.

Lemma send_email_from_not_a_string_witness :
  let w := Samples.world0 (Ok Samples.accepted) in
  ∃ r w' props,
    send_email (<["from" := VNum 7]> Samples.mail0) w = (Ok r, w')
    ∧ res_status r = 500%Z
    ∧ res_body r = Some (VObj props)
    ∧ props !! "error" = Some (VStr "Failed to send email")
    ∧ calls (performed (send_email (<["from" := VNum 7]> Samples.mail0)) w) = [].
Proof.
  intros w.
  apply (send_email_from_not_a_string (<["from" := VNum 7]> Samples.mail0) w
           Samples.accounts0 (Samples.account "a2" "sk_2" "Second") (VNum 7)).
  - reflexivity.
  - reflexivity.
  - reflexivity.
  - reflexivity.
  - reflexivity.
  - reflexivity.
  - intros s. discriminate.
  - reflexivity.
  - repeat constructor; discriminate.
  - reflexivity.
Defined.

(** What [trim] leaves has no white space at either end. *)
Lemma strip_prefix_Some w s s' : strip_prefix w s = Some s' → s = (w ++ s')%list.
Proof.
  revert s. induction w as [|c w IH]; intros s; simpl.
  { by intros [= <-]. }
  destruct s as [|d s]; [done|].
  destruct (Ascii.eqb c d) eqn:E; [|done]. apply Ascii.eqb_eq in E as ->.
  intros H. by rewrite (IH _ H).
Qed.

Lemma strip_prefix_None w s : strip_prefix w s = None → ¬ w `prefix_of` s.
Proof.
  revert s. induction w as [|c w IH]; intros s; simpl; [done|].
  destruct s as [|d s].
  { intros _ [k Hk]. discriminate Hk. }
  destruct (Ascii.eqb c d) eqn:E.
  - intros H [k Hk]. injection Hk as -> Hk. apply (IH _ H). by exists k.
  - apply Ascii.eqb_neq in E. intros _ [k Hk]. injection Hk as Hcd _. done.
Qed.

Lemma strip_any_Some table s s' :
  strip_any table s = Some s' → ∃ w, w ∈ table ∧ s = (w ++ s')%list.
Proof.
  induction table as [|w table IH]; simpl; [done|].
  destruct (strip_prefix w s) as [r|] eqn:E.
  - intros [= <-]. exists w. split; [left|]. by apply strip_prefix_Some.
  - intros (w' & Hin & Hs)%IH. exists w'. split; [by right|done].
Qed.

Lemma strip_any_None table s :
  strip_any table s = None → ∀ w, w ∈ table → ¬ w `prefix_of` s.
Proof.
  induction table as [|w table IH]; simpl.
  { intros _ w Hw. by apply elem_of_nil in Hw. }
  destruct (strip_prefix w s) as [r|] eqn:E; [done|].
  intros H w' [->|Hin]%elem_of_cons; [by apply strip_prefix_None|by apply IH].
Qed.

Lemma strip_all_suffix table n s : strip_all table n s `suffix_of` s.
Proof.
  revert s. induction n as [|n IH]; intros s; simpl; [done|].
  destruct (strip_any table s) as [s'|] eqn:E; [|done].
  apply strip_any_Some in E as (w & _ & ->).
  etrans; [apply IH|]. by apply suffix_app_r.
Qed.

Lemma strip_all_done table n s :
  Forall (λ w, w ≠ []) table → (length s ≤ n)%nat →
  strip_any table (strip_all table n s) = None.
Proof.
  intros Hne. revert s. induction n as [|n IH]; intros s Hn; simpl.
  - destruct s; [|simpl in Hn; lia].
    destruct (strip_any table []) as [s'|] eqn:E; [|done].
    apply strip_any_Some in E as (w & Hin & Hs).
    symmetry in Hs. apply app_eq_nil in Hs as [-> _].
    by destruct (proj1 (Forall_forall _ _) Hne _ Hin).
  - destruct (strip_any table s) as [s'|] eqn:E; [|done].
    apply IH. apply strip_any_Some in E as (w & Hin & ->).
    pose proof (proj1 (Forall_forall _ _) Hne _ Hin) as Hw.
    rewrite length_app in Hn. destruct w; [done|]. simpl in Hn. lia.
Qed.

Lemma length_list_ascii s :
  length (String.list_ascii_of_string s) = String.length s.
Proof. induction s; simpl; congruence. Qed.

Lemma white_space_nonempty : Forall (λ w, w ≠ []) white_space.
Proof. repeat constructor; discriminate. Qed.

Lemma white_space_reverse_nonempty : Forall (λ w, w ≠ []) (map reverse white_space).
Proof. repeat constructor; discriminate. Qed.

Lemma trim_tidy s : trim s ≠ "" → tidy (trim s).
Proof.
  intros Hne. split; [done|]. intros c Hc.
  unfold trim, trim_end, trim_start.
  rewrite !String.list_ascii_of_string_of_list_ascii.
  set (b := strip_all white_space (String.length s) (String.list_ascii_of_string s)).
  set (n := String.length _).
  set (r := strip_all (map reverse white_space) n (reverse b)).
  assert (strip_any white_space b = None) as Hb.
  { apply strip_all_done; [apply white_space_nonempty|].
    by rewrite length_list_ascii. }
  assert (strip_any (map reverse white_space) r = None) as Hr.
  { apply strip_all_done; [apply white_space_reverse_nonempty|].
    unfold n. rewrite <- length_list_ascii,
      String.list_ascii_of_string_of_list_ascii, length_reverse. done. }
  split.
  - intros Hp. apply (strip_any_None _ _ Hb c Hc).
    etrans; [exact Hp|].
    apply prefix_suffix_reverse. rewrite reverse_involutive.
    apply strip_all_suffix.
  - intros Hs. apply suffix_prefix_reverse in Hs. rewrite reverse_involutive in Hs.
    apply (strip_any_None _ _ Hr (reverse c)); [|done].
    apply list_elem_of_In, in_map. by apply list_elem_of_In.
Qed.

Lemma lookup_with_prop_ne k k' e (m : gmap string value) :
  k ≠ k' → with_prop k e m !! k' = m !! k'.
Proof. intros Hk. destruct e; simpl; [by rewrite lookup_insert_ne|done]. Qed.

Lemma send_payload_from to subject content from p :
  send_payload to subject content from = Ok p →
  p !! "from" = None ∨ ∃ s, p !! "from" = Some (VStr s) ∧ tidy s.
Proof.
  unfold send_payload.
  set (base := with_prop "to" to _).
  assert (base !! "from" = None) as Hbase.
  { unfold base. rewrite !lookup_with_prop_ne by done. done. }
  destruct from as [f|]; [|intros [= <-]; by left].
  destruct (truthy f); [|intros [= <-]; by left].
  destruct f; simpl; try done.
  destruct (String.eqb (trim s) "") eqn:Hs; simpl; intros [= <-]; [by left|].
  right. exists (trim s). rewrite lookup_insert_eq. split; [done|].
  apply trim_tidy. by apply String.eqb_neq.
Qed.

(** X17.  Whatever the request and the files, a [from] that send-email
    passes to the provider is a string with something in it and no white
    space at either end; a blank [from] is not passed at all. *)
Theorem send_email_from_is_tidy body w rq :
  ProviderCall rq ∈ performed (send_email body) w →
  ∃ p, payload rq = Some (VObj p)
       ∧ (p !! "from" = None ∨ ∃ s, p !! "from" = Some (VStr s) ∧ tidy s).
Proof.
  unfold performed, send_email.
  destruct (_ || _); simpl.
  { rewrite drop_all. by intros ?%elem_of_nil. }
  run.
  destruct (readJsonFile_cases accountsFilePath w) as (o & w1 & -> & Hp & Ht).
  intros Hin.
  repeat case_match; simplify_eq/=;
    destruct Ht as [Ht|Ht]; rewrite Ht in Hin; member Hin.
  all: simplify_eq; eexists; split; [done|]; by eapply send_payload_from.
Qed.

Lemma send_email_from_is_tidy_witness :
  let w := Samples.world0 (Ok Samples.accepted) in
  ∃ rq p s,
    ProviderCall rq ∈ performed (send_email Samples.mail1) w
    ∧ payload rq = Some (VObj p)
    ∧ p !! "from" = Some (VStr s) ∧ tidy s.
Proof.
  intros w.
  set (rq := {| method := POST; url := "https://api.useplunk.com/v1/send";
                payload := Some (VObj (<["from" := VStr "me@example.org"]>
                                         {[ "to" := VStr "bob@example.org";
                                            "subject" := VStr "Hello";
                                            "body" := VStr "<p>Hi</p>";
                                            "subscribed" := VBool true ]}));
                headers := {[ "Authorization" := "Bearer sk_2";
                              "Content-Type" := "application/json" ]} |}).
  assert (ProviderCall rq ∈ performed (send_email Samples.mail1) w) as Hin
    by (vm_compute; left).
  destruct (send_email_from_is_tidy Samples.mail1 w rq Hin) as (p & Hp & [Hf|Hf]).
  - exfalso. injection Hp as <-. vm_compute in Hf. discriminate Hf.
  - destruct Hf as (s & Hs & Ht). exists rq, p, s. done.
Defined.

(** ** POST /api/track-event and POST /api/check-status *)

(** The one way a conversion to a string fails. *)
Lemma to_string_throws_depth nt n :
  ∀ v e, (depth v ≤ n)%nat → to_string nt v = Throw e →
         e = TypeError "Cannot convert object to primitive value".
Proof.
  induction n as [|n IH]; intros [| [|] | k | s | items | props] e Hd;
    simpl in *; try done; try lia.
  - destruct (props !! "toString"); [|done]. by intros [= <-].
  - assert (Forall (λ x, depth x ≤ n)%nat items) as Hall.
    { apply Forall_forall. intros x Hx.
      assert (list_max (map depth items) ≤ n)%nat as Hm by lia.
      pose proof (proj1 (list_max_le _ _) Hm) as Hf.
      rewrite List.Forall_forall in Hf. apply Hf, in_map.
      by apply list_elem_of_In. }
    clear Hd. revert e. induction Hall as [|x items Hx _ IHi]; intros e; simpl; [done|].
    destruct (match x with VNull => Ok "" | _ => to_string nt x end) eqn:Ex; simpl.
    + specialize (IHi e).
      destruct (each _ items) eqn:Ei; simpl in *; [done|]. exact IHi.
    + intros [= <-]. destruct x; try done; by apply (IH _ _ Hx) in Ex.
  - destruct (props !! "toString"); [|done]. by intros [= <-].
Qed.

Lemma to_string_throws nt v e :
  to_string nt v = Throw e →
  e = TypeError "Cannot convert object to primitive value".
Proof. by apply (to_string_throws_depth nt (depth v)). Qed.

Lemma to_string_u_throws nt o e :
  to_string_u nt o = Throw e →
  e = TypeError "Cannot convert object to primitive value".
Proof. destruct o; [apply to_string_throws|done]. Qed.

Lemma track_event_run body w l account key :
  truthy_u (body !! "accountId") = true →
  truthy_u (body !! "event") = true →
  truthy_u (body !! "email") = true →
  stored w accountsFilePath = Some l →
  Forall not_null l →
  List.find (λ a, strict_eq_u (prop_of "id" a) (body !! "accountId")) l
    = Some account →
  to_string_u (number_text w) (prop_of "secretKey" account) = Ok key →
  let rq := {| method := POST; url := "https://api.useplunk.com/v1/track";
               payload := Some (VObj (track_payload (body !! "event")
                                        (body !! "email") (body !! "data")
                                        (body !! "subscribed")));
               headers := bearer_headers key |} in
  track_event body w
  = match plunk w rq with
    | Ok answer => (Ok (json 200 (data answer)), log (ProviderCall rq) w)
    | Throw e =>
        (Ok (json (error_status e)
               (VObj {[ "error" := VStr "Failed to track event";
                        "details" := error_detail e ]})),
         log (ConsoleError "Plunk Track Error:" (error_detail e))
           (log (ProviderCall rq) w))
    end.
Proof.
  intros Ha Hev Hem Hs Hn Hfind Hkey rq.
  pose proof (find_some _ _ Hfind) as [Hin Hid].
  assert (∃ props, account = VObj props) as [props ->].
  { apply truthy_u_Some in Ha as (v & Hv & _). rewrite Hv in Hid.
    by apply strict_eq_u_Some, prop_of_Some_obj in Hid. }
  unfold track_event. rewrite Ha, Hev, Hem. cbn [negb orb].
  unfold try_catch.
  erewrite run_bind; last first.
  { eapply readJsonFile_nonempty; [done|]. intros ->. destruct Hin. }
  simpl. erewrite run_lift by done.
  erewrite run_lift by (apply array_find_pure, has_id_pure, Hn).
  rewrite Hfind. simpl.
  unfold interpolate, axios, console_error, lift, mret, M_ret, ret, mbind,
    M_bind, bind. simpl.
  simpl in Hkey. rewrite Hkey. subst rq. simpl. by destruct (plunk w _).
Qed.

(** The run of the handler when the secret key of the account cannot be
    converted: the template literal throws inside the try block. *)
Lemma track_event_no_key body w l account e :
  truthy_u (body !! "accountId") = true →
  truthy_u (body !! "event") = true →
  truthy_u (body !! "email") = true →
  stored w accountsFilePath = Some l →
  Forall not_null l →
  List.find (λ a, strict_eq_u (prop_of "id" a) (body !! "accountId")) l
    = Some account →
  to_string_u (number_text w) (prop_of "secretKey" account) = Throw e →
  track_event body w
  = (Ok (json 500 (VObj {[ "error" := VStr "Failed to track event";
                           "details" := VStr (message e) ]})),
     log (ConsoleError "Plunk Track Error:" (VStr (message e))) w).
Proof.
  intros Ha Hev Hem Hs Hn Hfind Hkey.
  pose proof (to_string_u_throws _ _ _ Hkey) as ->.
  pose proof (find_some _ _ Hfind) as [Hin Hid].
  assert (∃ props, account = VObj props) as [props ->].
  { apply truthy_u_Some in Ha as (v & Hv & _). rewrite Hv in Hid.
    by apply strict_eq_u_Some, prop_of_Some_obj in Hid. }
  unfold track_event. rewrite Ha, Hev, Hem. cbn [negb orb].
  unfold try_catch.
  erewrite run_bind; last first.
  { eapply readJsonFile_nonempty; [done|]. intros ->. destruct Hin. }
  simpl. erewrite run_lift by done.
  erewrite run_lift by (apply array_find_pure, has_id_pure, Hn).
  rewrite Hfind. simpl.
  unfold interpolate, axios, console_error, lift, mret, M_ret, ret, mbind,
    M_bind, bind. simpl.
  simpl in Hkey. by rewrite Hkey.
Qed.

(** X18.  For a track-event request with its three required fields and a
    stored account of the request's [accountId]: when the secret key of
    the first stored account with that id has a text (a string is its own
    text), the provider is called once, with POST on the track URL.  The
    payload holds [event] and [email] of the request, [subscribed] as the
    request gives it (also [false] or [null]) and [true] only when the
    request has none, [data] as given when it counts as true and [{}]
    otherwise, and nothing else; the Authorization header is "Bearer "
    followed by that text; a successful answer is relayed with status
    200.  When the key has no text (an object with a [toString] property
    of its own), the provider is not called and the reply is 500 with
    [error: "Failed to track event"]. *)
Theorem track_event_forwards body w l account :
  truthy_u (body !! "accountId") = true →
  truthy_u (body !! "event") = true →
  truthy_u (body !! "email") = true →
  stored w accountsFilePath = Some l →
  Forall not_null l →
  List.find (λ a, strict_eq_u (prop_of "id" a) (body !! "accountId")) l
    = Some account →
  match to_string_u (number_text w) (prop_of "secretKey" account) with
  | Ok key =>
      ∃ rq p rest,
        performed (track_event body) w = ProviderCall rq :: rest
        ∧ calls rest = [] ∧ writes rest = []
        ∧ method rq = POST
        ∧ url rq = "https://api.useplunk.com/v1/track"
        ∧ payload rq = Some (VObj p)
        ∧ p !! "event" = body !! "event"
        ∧ p !! "email" = body !! "email"
        ∧ p !! "subscribed" = Some (match body !! "subscribed" with
                                    | Some v => v
                                    | None => VBool true
                                    end)
        ∧ p !! "data" = Some (match body !! "data" with
                              | Some v => if truthy v then v else VObj ∅
                              | None => VObj ∅
                              end)
        ∧ (∀ k, k ∉ ["event"; "email"; "subscribed"; "data"] → p !! k = None)
        ∧ headers rq !! "Authorization" = Some ("Bearer " ++ key)
        ∧ ∀ answer, plunk w rq = Ok answer →
            (track_event body w).1 = Ok (json 200 (data answer))
  | Throw e =>
      (track_event body w).1
      = Ok (json 500 (VObj {[ "error" := VStr "Failed to track event";
                              "details" := VStr (message e) ]}))
      ∧ calls (performed (track_event body) w) = []
  end.
Proof.
  intros Ha Hev Hem Hs Hn Hfind.
  destruct (to_string_u _ _) as [key|e] eqn:Hkey; last first.
  { pose proof (track_event_no_key body w l account e
                  Ha Hev Hem Hs Hn Hfind Hkey) as Hrun.
    split; [by rewrite Hrun|]. by erewrite performed_app by (exact Hrun || done). }
  pose proof (track_event_run body w l account key
                Ha Hev Hem Hs Hn Hfind Hkey) as Hrun.
  cbv zeta in Hrun.
  set (p := track_payload _ _ _ _) in Hrun.
  set (rq := Build_provider_request _ _ _ _) in Hrun.
  exists rq, p.
  eexists (match plunk w rq with
           | Ok _ => []
           | Throw e => [ConsoleError "Plunk Track Error:" (error_detail e)]
           end).
  apply truthy_u_Some in Hev as (event & Eev & _).
  apply truthy_u_Some in Hem as (email & Eem & _).
  split_and!; try done.
  - destruct (plunk w rq); (eapply performed_app; [exact Hrun|]);
      simpl; by rewrite <- ?app_assoc.
  - by destruct (plunk w rq).
  - by destruct (plunk w rq).
  - unfold p, track_payload. rewrite Eev. by simplify_map_eq.
  - unfold p, track_payload. rewrite Eev, Eem. by simplify_map_eq.
  - unfold p, track_payload. rewrite Eev, Eem. simplify_map_eq.
    by destruct (body !! "subscribed").
  - unfold p, track_payload. rewrite Eev, Eem. by simplify_map_eq.
  - intros k Hk. unfold p, track_payload. rewrite Eev, Eem.
    assert (k ≠ "event" ∧ k ≠ "email" ∧ k ≠ "subscribed" ∧ k ≠ "data")
      as (? & ? & ? & ?) by set_solver.
    by simplify_map_eq.
  - intros answer Hp. rewrite Hrun, Hp. done.
Qed.

Lemma track_event_forwards_witness :
  let w := Samples.world0 (Ok Samples.accepted) in
  let body := <["subscribed" := VBool false]> Samples.track0 in
  ∃ rq p rest,
    performed (track_event body) w = ProviderCall rq :: rest
    ∧ payload rq = Some (VObj p)
    ∧ p !! "subscribed" = Some (VBool false)
    ∧ p !! "data" = Some (VObj ∅)
    ∧ headers rq !! "Authorization" = Some "Bearer sk_1"
    ∧ (track_event body w).1 = Ok (json 200 (data Samples.accepted)).
Proof.
  intros w body.
  pose proof (track_event_forwards body w Samples.accounts0
                (Samples.account "a1" "sk_1" "First")) as H.
  simpl in H.
  destruct H as (rq & p & rest & H1 & _ & _ & _ & _ & H6 & _ & _ & H9 & H10 & _
                 & H12 & H13).
  - reflexivity.
  - reflexivity.
  - reflexivity.
  - reflexivity.
  - repeat constructor; discriminate.
  - reflexivity.
  - exists rq, p, rest. split; [exact H1|]. split; [exact H6|].
    split; [exact H9|]. split; [exact H10|]. split; [exact H12|].
    apply H13. reflexivity.
Defined.

(** The run of send-email when the secret key of the account cannot be
    converted. *)
Lemma send_email_no_key body w l account e :
  truthy_u (body !! "accountId") = true →
  truthy_u (body !! "to") = true →
  truthy_u (body !! "subject") = true →
  truthy_u (body !! "content") = true →
  (∀ f, body !! "from" = Some f → truthy f = true → ∃ s, f = VStr s) →
  stored w accountsFilePath = Some l →
  Forall not_null l →
  List.find (λ a, strict_eq_u (prop_of "id" a) (body !! "accountId")) l
    = Some account →
  to_string_u (number_text w) (prop_of "secretKey" account) = Throw e →
  send_email body w
  = (Ok (json 500 (VObj {[ "error" := VStr "Failed to send email";
                           "details" := VStr (message e) ]})),
     log (ConsoleError "Plunk Error:" (VStr (message e))) w).
Proof.
  intros Ha Hto Hsu Hco Hfrom Hs Hn Hfind Hkey.
  pose proof (to_string_u_throws _ _ _ Hkey) as ->.
  pose proof (find_some _ _ Hfind) as [Hin Hid].
  assert (∃ props, account = VObj props) as [props ->].
  { apply truthy_u_Some in Ha as (v & Hv & _). rewrite Hv in Hid.
    by apply strict_eq_u_Some, prop_of_Some_obj in Hid. }
  unfold send_email. rewrite Ha, Hto, Hsu, Hco. cbn [negb orb].
  unfold try_catch.
  erewrite run_bind; last first.
  { eapply readJsonFile_nonempty; [done|]. intros ->. destruct Hin. }
  simpl. erewrite run_lift by done.
  erewrite run_lift by (apply array_find_pure, has_id_pure, Hn).
  rewrite Hfind. simpl.
  rewrite (send_payload_forwarded _ _ _ _ Hfrom). simpl.
  unfold interpolate, axios, console_error, lift, mret, M_ret, ret, mbind,
    M_bind, bind. simpl.
  simpl in Hkey. by rewrite Hkey.
Qed.

(** X29.  A stored secret key that has no text (an object with a
    [toString] property of its own, or an array that holds one) stops
    send-email before the provider is called: the template literal of the
    Authorization header throws inside the try block, and the reply is 500
    with [error: "Failed to send email"] and the message of the TypeError
    under [details]. *)
Theorem send_email_key_without_text body w l account e :
  truthy_u (body !! "accountId") = true →
  truthy_u (body !! "to") = true →
  truthy_u (body !! "subject") = true →
  truthy_u (body !! "content") = true →
  (∀ f, body !! "from" = Some f → truthy f = true → ∃ s, f = VStr s) →
  stored w accountsFilePath = Some l →
  Forall not_null l →
  List.find (λ a, strict_eq_u (prop_of "id" a) (body !! "accountId")) l
    = Some account →
  to_string_u (number_text w) (prop_of "secretKey" account) = Throw e →
  (send_email body w).1
  = Ok (json 500 (VObj {[ "error" := VStr "Failed to send email";
                          "details" :=
                            VStr "Cannot convert object to primitive value" ]}))
  ∧ calls (performed (send_email body) w) = [].
Proof.
  intros Ha Hto Hsu Hco Hfrom Hs Hn Hfind Hkey.
  pose proof (send_email_no_key body w l account e
                Ha Hto Hsu Hco Hfrom Hs Hn Hfind Hkey) as Hrun.
  pose proof (to_string_u_throws _ _ _ Hkey) as ->.
  split; [by rewrite Hrun|]. by erewrite performed_app by (exact Hrun || done).
Qed.

Lemma send_email_key_without_text_witness :
  let odd := VObj {[ "id" := VStr "a9";
                     "secretKey" := VObj {[ "toString" := VNum 1 ]} ]} in
  let w := store accountsFilePath (Json (VArr [odd]))
             (Samples.world0 (Ok Samples.accepted)) in
  let body := <["accountId" := VStr "a9"]> Samples.mail0 in
  (send_email body w).1
  = Ok (json 500 (VObj {[ "error" := VStr "Failed to send email";
                          "details" :=
                            VStr "Cannot convert object to primitive value" ]}))
  ∧ calls (performed (send_email body) w) = [].
Proof.
  intros odd w body.
  apply (send_email_key_without_text body w [odd] odd
           (TypeError "Cannot convert object to primitive value")).
  - reflexivity.
  - reflexivity.
  - reflexivity.
  - reflexivity.
  - intros f Hf. vm_compute in Hf. discriminate Hf.
  - reflexivity.
  - repeat constructor; discriminate.
  - reflexivity.
  - reflexivity.
Defined.

Lemma check_status_run body w key :
  truthy_u (body !! "secretKey") = true →
  to_string_u (number_text w) (body !! "secretKey") = Ok key →
  let rq := {| method := GET;
               url := "https://api.useplunk.com/v1/contacts?limit=1";
               payload := None;
               headers := {[ "Authorization" := "Bearer " ++ key ]} |} in
  check_status body w
  = match plunk w rq with
    | Ok answer =>
        (Ok (json 200 (VObj {[ "success" := VBool true;
                               "message" := VStr "Connected to Plunk.";
                               "data" := data answer ]})),
         log (ProviderCall rq) w)
    | Throw e =>
        (Ok Authentication_Failed,
         log (ConsoleError "Auth Error:" (error_detail e)) (log (ProviderCall rq) w))
    end.
Proof.
  intros Hk Hkey rq. unfold check_status. rewrite Hk. simpl. run.
  rewrite Hkey. subst rq. by destruct (plunk w _).
Qed.

(** X19.  A check-status request that carries a secret key with a text (a
    string is its own text) calls the provider once: a GET of one
    contact, with no payload and the single header "Authorization: Bearer "
    followed by the text of the key taken from the request itself.  No
    stored account is consulted: the files are as they were.  When the
    provider answers, the reply is 200 with [success: true] and the
    provider's data.  A key without a text (an object with a [toString]
    property of its own) is answered like a key the provider refuses, 401
    "Authentication Failed", without a call. *)
Theorem check_status_connected body w :
  truthy_u (body !! "secretKey") = true →
  match to_string_u (number_text w) (body !! "secretKey") with
  | Ok key =>
      ∃ rq rest,
        performed (check_status body) w = ProviderCall rq :: rest
        ∧ calls rest = [] ∧ writes rest = []
        ∧ method rq = GET
        ∧ url rq = "https://api.useplunk.com/v1/contacts?limit=1"
        ∧ payload rq = None
        ∧ headers rq = {[ "Authorization" := "Bearer " ++ key ]}
        ∧ disk (check_status body w).2 = disk w
        ∧ ∀ answer, plunk w rq = Ok answer →
            (check_status body w).1
            = Ok (json 200 (VObj {[ "success" := VBool true;
                                    "message" := VStr "Connected to Plunk.";
                                    "data" := data answer ]}))
  | Throw e =>
      (check_status body w).1 = Ok Authentication_Failed
      ∧ calls (performed (check_status body) w) = []
      ∧ disk (check_status body w).2 = disk w
  end.
Proof.
  intros Hk.
  destruct (to_string_u _ _) as [key|e] eqn:Hkey; last first.
  { assert (check_status body w
            = (Ok Authentication_Failed,
               log (ConsoleError "Auth Error:" (error_detail e)) w)) as Hrun.
    { unfold check_status. rewrite Hk. simpl. run. by rewrite Hkey. }
    split; [by rewrite Hrun|].
    split; [by erewrite performed_app by (exact Hrun || done)|by rewrite Hrun]. }
  pose proof (check_status_run body w key Hk Hkey) as Hrun. cbv zeta in Hrun.
  set (rq := Build_provider_request _ _ _ _) in Hrun.
  exists rq.
  eexists (match plunk w rq with
           | Ok _ => []
           | Throw e => [ConsoleError "Auth Error:" (error_detail e)]
           end).
  split_and!; try done.
  - destruct (plunk w rq); (eapply performed_app; [exact Hrun|]);
      simpl; by rewrite <- ?app_assoc.
  - by destruct (plunk w rq).
  - by destruct (plunk w rq).
  - rewrite Hrun. by destruct (plunk w rq).
  - intros answer Hp. by rewrite Hrun, Hp.
Qed.

Lemma check_status_connected_witness :
  let w := Samples.world0 (Ok Samples.accepted) in
  ∃ rq rest,
    performed (check_status Samples.key0) w = ProviderCall rq :: rest
    ∧ headers rq = {[ "Authorization" := "Bearer sk_bad" ]}
    ∧ (check_status Samples.key0 w).1
      = Ok (json 200 (VObj {[ "success" := VBool true;
                              "message" := VStr "Connected to Plunk.";
                              "data" := data Samples.accepted ]})).
Proof.
  intros w.
  pose proof (check_status_connected Samples.key0 w) as H. simpl in H.
  destruct H as (rq & rest & H1 & _ & _ & _ & _ & _ & H7 & _ & H9); [reflexivity|].
  exists rq, rest. split; [exact H1|]. split; [exact H7|].
  apply H9. reflexivity.
Defined.

(** X20.  In send-email and track-event the account file is read inside the
    same try block as the provider call.  When the file cannot be read (an
    error other than a missing file) or does not hold JSON, the reply is
    therefore not the 500 "DB Error" of the account handlers: it is status
    500 with the error text of the provider path and the message of the
    file error under [details]; the provider is not called. *)
Theorem proxy_storage_failure body w e :
  truthy_u (body !! "accountId") = true →
  disk w accountsFilePath = Throw e ∨ disk w accountsFilePath = Ok (Garbled e) →
  is_ENOENT e = false →
  response e = None →
  (truthy_u (body !! "to") = true → truthy_u (body !! "subject") = true →
   truthy_u (body !! "content") = true →
   (send_email body w).1
   = Ok (json 500 (VObj {[ "error" := VStr "Failed to send email";
                           "details" := VStr (message e) ]}))
   ∧ calls (performed (send_email body) w) = [])
  ∧ (truthy_u (body !! "event") = true → truthy_u (body !! "email") = true →
     (track_event body w).1
     = Ok (json 500 (VObj {[ "error" := VStr "Failed to track event";
                             "details" := VStr (message e) ]}))
     ∧ calls (performed (track_event body) w) = []).
Proof.
  intros Ha Hd He Hr.
  pose proof (readJsonFile_rethrows accountsFilePath w e He Hd) as Hread.
  assert (error_status e = 500%Z) as Hst by (unfold error_status; by rewrite Hr).
  assert (error_detail e = VStr (message e)) as Hde
    by (unfold error_detail; by rewrite Hr).
  split.
  - intros Hto Hsu Hco.
    assert (send_email body w
            = (Ok (json 500 (VObj {[ "error" := VStr "Failed to send email";
                                     "details" := VStr (message e) ]})),
               log (ConsoleError "Plunk Error:" (VStr (message e))) w)) as Hrun.
    { unfold send_email. rewrite Ha, Hto, Hsu, Hco. cbn [negb orb].
      unfold try_catch, mbind, M_bind, bind. rewrite Hread. simpl.
      by rewrite Hst, Hde. }
    split; [by rewrite Hrun|]. by erewrite performed_app by (exact Hrun || done).
  - intros Hev Hem.
    assert (track_event body w
            = (Ok (json 500 (VObj {[ "error" := VStr "Failed to track event";
                                     "details" := VStr (message e) ]})),
               log (ConsoleError "Plunk Track Error:" (VStr (message e))) w)) as Hrun.
    { unfold track_event. rewrite Ha, Hev, Hem. cbn [negb orb].
      unfold try_catch, mbind, M_bind, bind. rewrite Hread. simpl.
      by rewrite Hst, Hde. }
    split; [by rewrite Hrun|]. by erewrite performed_app by (exact Hrun || done).
Qed.

Lemma proxy_storage_failure_witness :
  let w := Samples.world0 (Ok Samples.accepted) in
  let denied := {| message := "EACCES: permission denied";
                   code := Some "EACCES"; response := None |} in
  let w0 := {| disk := λ _, Throw denied; write_fault := write_fault w;
               write_damage := write_damage w; plunk := plunk w;
               uuid := uuid w; clock := clock w;
               number_text := number_text w; trace := [] |} in
  (send_email Samples.mail0 w0).1
  = Ok (json 500 (VObj {[ "error" := VStr "Failed to send email";
                          "details" := VStr "EACCES: permission denied" ]}))
  ∧ (get_accounts w0).1 = Ok DB_Error.
Proof.
  intros w denied w0. split; [|reflexivity].
  apply (proxy_storage_failure Samples.mail0 w0 denied);
    [reflexivity|left; reflexivity|reflexivity..].
Defined.

(** ** What the handlers never do *)

Section Respects.
Variable R : world → world → Prop.
Hypothesis R_refl : ∀ w, R w w.
Hypothesis R_trans : ∀ w1 w2 w3, R w1 w2 → R w2 w3 → R w1 w3.
Hypothesis R_log : ∀ w l d, R w (log (ConsoleError l d) w).

Lemma respects_ret {A} (a : A) : respects R (mret a).
Proof. intros w. apply R_refl. Qed.

Lemma respects_lift {A} (o : outcome A) : respects R (lift o).
Proof. intros w. apply R_refl. Qed.

Lemma respects_throw {A} e : respects R (@throw A e).
Proof. intros w. apply R_refl. Qed.

Lemma respects_bind {A B} (m : M A) (k : A → M B) :
  respects R m → (∀ a, respects R (k a)) → respects R (m ≫= k).
Proof.
  intros Hm Hk w. unfold mbind, M_bind, bind.
  specialize (Hm w). destruct (m w) as [[a|e] w1]; simpl in *; [|done].
  eapply R_trans; [exact Hm|apply Hk].
Qed.

Lemma respects_try_catch {A} (m : M A) h :
  respects R m → (∀ e, respects R (h e)) → respects R (try_catch m h).
Proof.
  intros Hm Hh w. unfold try_catch.
  specialize (Hm w). destruct (m w) as [[a|e] w1]; simpl in *; [done|].
  eapply R_trans; [exact Hm|apply Hh].
Qed.

Lemma respects_readFile p : respects R (readFile p).
Proof. intros w. apply R_refl. Qed.

Lemma respects_console_error l d : respects R (console_error l d).
Proof. intros w. apply R_log. Qed.

Lemma respects_randomUUID : respects R randomUUID.
Proof. intros w. apply R_refl. Qed.

Lemma respects_new_Date : respects R new_Date.
Proof. intros w. apply R_refl. Qed.

Lemma respects_interpolate v : respects R (interpolate v).
Proof. intros w. apply R_refl. Qed.
End Respects.

(** The steps a handler is made of, for a relation that holds across console
    output, across the writes [Hwrite] allows and across the provider calls
    [Hcall] allows. *)
Ltac respects_steps Hwrite Hcall :=
  repeat first
    [ apply respects_ret; solve [auto]
    | apply respects_lift; solve [auto]
    | apply respects_throw; solve [auto]
    | apply respects_readFile; solve [auto]
    | apply respects_console_error; solve [auto]
    | apply respects_randomUUID; solve [auto]
    | apply respects_new_Date; solve [auto]
    | apply respects_interpolate; solve [auto]
    | apply Hwrite
    | apply Hcall
    | apply respects_bind; [solve [auto]| |intros ?]
    | apply respects_try_catch; [solve [auto]| |intros ?]
    | case_match ].

Lemma same_file_refl p w : same_file p w w.
Proof. done. Qed.

Lemma same_file_trans p w1 w2 w3 :
  same_file p w1 w2 → same_file p w2 w3 → same_file p w1 w3.
Proof. unfold same_file. congruence. Qed.

Lemma same_file_writeFile p q t : q ≠ p → respects (same_file p) (writeFile q t).
Proof.
  intros Hq w. unfold same_file, writeFile.
  destruct (write_fault w q); simpl; [|by rewrite decide_False].
  destruct (write_damage w q); simpl; [done|by rewrite decide_False..].
Qed.

Lemma same_file_axios p r : respects (same_file p) (axios r).
Proof. done. Qed.

(** X21.  Each handler keeps to its own file.  The handlers of the
    accounts and the three proxy handlers leave the subscriber file as it
    was; POST /api/subscribers leaves the account file as it was; whatever
    the request, the files and the provider. *)
Theorem handlers_keep_to_their_file id body b w :
  same_file subscribersFilePath w (get_accounts w).2
  ∧ same_file subscribersFilePath w (post_accounts b w).2
  ∧ same_file subscribersFilePath w (put_account id body w).2
  ∧ same_file subscribersFilePath w (delete_account id w).2
  ∧ same_file subscribersFilePath w (check_status body w).2
  ∧ same_file subscribersFilePath w (send_email body w).2
  ∧ same_file subscribersFilePath w (track_event body w).2
  ∧ same_file accountsFilePath w (post_subscribers body w).2.
Proof.
  pose proof (same_file_refl subscribersFilePath) as Hr.
  pose proof (same_file_trans subscribersFilePath) as Ht.
  pose proof (same_file_refl accountsFilePath) as Hr'.
  pose proof (same_file_trans accountsFilePath) as Ht'.
  assert (∀ w l d, same_file subscribersFilePath w (log (ConsoleError l d) w))
    as Hl by done.
  assert (∀ w l d, same_file accountsFilePath w (log (ConsoleError l d) w))
    as Hl' by done.
  assert (∀ t, respects (same_file subscribersFilePath) (writeFile accountsFilePath t))
    as Hw by (intros; by apply same_file_writeFile).
  assert (∀ t, respects (same_file accountsFilePath) (writeFile subscribersFilePath t))
    as Hw' by (intros; by apply same_file_writeFile).
  pose proof (same_file_axios subscribersFilePath) as Hc.
  pose proof (same_file_axios accountsFilePath) as Hc'.
  split_and!;
    match goal with
    | |- same_file ?p ?w (?m ?w).2 => revert w; change (respects (same_file p) m)
    end;
    unfold get_accounts, post_accounts, put_account, delete_account, check_status,
      post_subscribers, send_email, track_event, readJsonFile, writeJsonFile.
  1-7: respects_steps Hw Hc.
  respects_steps Hw' Hc'.
Qed.

Lemma no_call_since_refl w : no_call_since w w.
Proof. exists []. by rewrite app_nil_r. Qed.

Lemma no_call_since_trans w1 w2 w3 :
  no_call_since w1 w2 → no_call_since w2 w3 → no_call_since w1 w3.
Proof.
  intros (e1 & H1 & C1) (e2 & H2 & C2). exists (e1 ++ e2)%list.
  split; [by rewrite H2, H1, app_assoc|]. by rewrite calls_app, C1, C2.
Qed.

Lemma no_call_since_writeFile p t : respects no_call_since (writeFile p t).
Proof.
  intros w. exists [WriteFile p t]. unfold writeFile.
  destruct (write_fault w p); [|done]. by destruct (write_damage w p).
Qed.

Lemma no_call_performed {A} (m : M A) w :
  no_call_since w (m w).2 → calls (performed m w) = [].
Proof.
  intros (evs & Ht & Hc). unfold performed. by rewrite Ht, drop_app_length.
Qed.

Lemma send_email_calls_once body w :
  (length (calls (performed (send_email body) w)) ≤ 1)%nat.
Proof.
  unfold performed, send_email.
  destruct (_ || _); simpl.
  { rewrite drop_all. simpl. lia. }
  run.
  destruct (readJsonFile_cases accountsFilePath w) as (o & w1 & -> & Hp & Ht).
  repeat case_match; simplify_eq/=;
    destruct Ht as [Ht|Ht]; rewrite Ht;
    rewrite <- ?app_assoc, ?drop_app_length, ?drop_all; simpl; lia.
Qed.

Lemma track_event_calls_once body w :
  (length (calls (performed (track_event body) w)) ≤ 1)%nat.
Proof.
  unfold performed, track_event.
  destruct (_ || _); simpl.
  { rewrite drop_all. simpl. lia. }
  run.
  destruct (readJsonFile_cases accountsFilePath w) as (o & w1 & -> & Hp & Ht).
  repeat case_match; simplify_eq/=;
    destruct Ht as [Ht|Ht]; rewrite Ht;
    rewrite <- ?app_assoc, ?drop_app_length, ?drop_all; simpl; lia.
Qed.

Lemma check_status_calls_once body w :
  (length (calls (performed (check_status body) w)) ≤ 1)%nat.
Proof.
  unfold performed, check_status.
  destruct (negb _); simpl.
  { rewrite drop_all. simpl. lia. }
  run. repeat case_match; simplify_eq/=;
    rewrite <- ?app_assoc, ?drop_app_length, ?drop_all; simpl; lia.
Qed.

(** X22.  The handlers of the accounts and of the subscribers never call
    the provider, and each proxy handler calls it at most once for a
    request; whatever the request, the files and the provider. *)
Theorem provider_calls_bounded id body b w :
  calls (performed get_accounts w) = []
  ∧ calls (performed (post_accounts b) w) = []
  ∧ calls (performed (put_account id body) w) = []
  ∧ calls (performed (delete_account id) w) = []
  ∧ calls (performed (post_subscribers body) w) = []
  ∧ (length (calls (performed (check_status body) w)) ≤ 1)%nat
  ∧ (length (calls (performed (send_email body) w)) ≤ 1)%nat
  ∧ (length (calls (performed (track_event body) w)) ≤ 1)%nat.
Proof.
  pose proof no_call_since_refl as Hr.
  pose proof no_call_since_trans as Ht.
  assert (∀ w l d, no_call_since w (log (ConsoleError l d) w)) as Hl
    by (intros; by eexists [_]).
  pose proof no_call_since_writeFile as Hw.
  split_and!;
    [..|apply check_status_calls_once|apply send_email_calls_once
     |apply track_event_calls_once];
    apply no_call_performed; revert w;
    match goal with
    | |- ∀ w, no_call_since w (?m w).2 => change (respects no_call_since m)
    end;
    unfold get_accounts, post_accounts, put_account, delete_account,
      post_subscribers, readJsonFile, writeJsonFile;
    respects_steps Hw Hw.
Qed.

End GatewayMore.

(* ===================================================================== *)
(** * More facts about the log viewer                                     *)
(* ===================================================================== *)

Module LogViewerMore.
Import LogViewer LogViewerFacts.

(** ** Statistics *)

Lemma count_if_status logs :
  count_if (λ l, bool_decide (status l = Delivered)) logs
  + count_if (λ l, bool_decide (status l = Failed)) logs
  + count_if (λ l, bool_decide (status l = Pending)) logs
  = length logs.
Proof.
  induction logs as [|l logs IH]; [done|].
  simpl. destruct (status l); simpl; lia.
Qed.

(** X23.  The dashboard has no count for pending logs: delivered and
    failed add up to the number of loaded logs less the pending ones, so to
    the number of loaded logs exactly when none is pending. *)
Theorem stats_leave_out_pending logs :
  delivered (stats logs) + failed (stats logs)
  + count_if (λ l, bool_decide (status l = Pending)) logs
  = length logs.
Proof.
  unfold stats. simpl. rewrite !length_filter_count. apply count_if_status.
Qed.

(** ** The buttons of the footer *)

Lemma elem_of_fetchLogs q p st :
  Fetch q ∈ fetchLogs p st ↔
  ∃ account, currentAccount st = Some account
    ∧ q = {| q_accountId := account; q_page := p;
             q_limit := limit (pagination st);
             q_status := if String.eqb (statusFilter st) "all" then None
                         else Some (statusFilter st) |}.
Proof.
  unfold fetchLogs. destruct (currentAccount st) as [account|].
  - rewrite list_elem_of_singleton. split.
    + intros [= ->]. eauto.
    + by intros (? & [= <-] & ->).
  - split; [by intros ?%elem_of_nil|by intros (? & ? & _)].
Qed.

(** Up to 2^53 in magnitude a sum of doubles is exact; from there on it is
    not: 2^53 + 1 is 2^53, and 2^53 + 3 is 2^53 + 4. *)
Lemma to_double_exact n : (Z.abs n ≤ 2 ^ 53)%Z → to_double n = n.
Proof.
  intros Hn. unfold to_double. by destruct (Z.leb_spec (Z.abs n) (2 ^ 53)); [|lia].
Qed.

Example to_double_rounds :
  to_double (2 ^ 53 + 1) = (2 ^ 53)%Z
  ∧ to_double (2 ^ 53 + 3) = (2 ^ 53 + 4)%Z
  ∧ to_double (2 ^ 54 + 6) = (2 ^ 54 + 8)%Z
  ∧ to_double (- 2 ^ 53 - 1) = (- 2 ^ 53)%Z.
Proof. split_and!; reflexivity. Qed.

(** X24.  On a page whose number doubles count exactly (below 2^53 in
    magnitude): Next fetches, and then fetches page + 1, exactly when
    nothing is loading and 0 <= page < totalPages; Previous fetches
    page - 1 exactly when nothing is loading and
    2 <= page <= totalPages + 1.  So Next on the last page and Previous on
    the first do nothing, and neither does an enabled Previous on a page
    more than one beyond [totalPages]. *)
Theorem footer_buttons_fetch_iff st q :
  (Z.abs (page (pagination st)) < 2 ^ 53)%Z →
  (Fetch q ∈ click_next st ↔
   isLoading st = false
   ∧ (0 ≤ page (pagination st) < totalPages (pagination st))%Z
   ∧ Fetch q ∈ fetchLogs (page (pagination st) + 1) st)
  ∧ (Fetch q ∈ click_previous st ↔
     isLoading st = false
     ∧ (2 ≤ page (pagination st) ≤ totalPages (pagination st) + 1)%Z
     ∧ Fetch q ∈ fetchLogs (page (pagination st) - 1) st).
Proof.
  intros Hsafe.
  unfold click_next, click_previous, next_disabled, previous_disabled,
    handlePageChange.
  rewrite !to_double_exact by lia.
  set (p := page (pagination st)). set (t := totalPages (pagination st)).
  split.
  - destruct (isLoading st); simpl.
    { rewrite orb_true_r. split; [by intros ?%elem_of_nil|by intros [? _]]. }
    rewrite orb_false_r.
    destruct (Z.leb_spec t p) as [H1|H1]; simpl.
    { split; [by intros ?%elem_of_nil|intros (_ & ? & _); lia]. }
    destruct (Z.leb_spec 1 (p + 1)) as [H2|H2]; simpl; last first.
    { split; [by intros ?%elem_of_nil|intros (_ & ? & _); lia]. }
    destruct (Z.leb_spec (p + 1) t) as [H3|H3]; simpl; [|lia].
    split; [intros ?; split_and!; (done || lia)|by intros (_ & _ & ?)].
  - destruct (isLoading st); simpl.
    { rewrite orb_true_r. split; [by intros ?%elem_of_nil|by intros [? _]]. }
    rewrite orb_false_r.
    destruct (Z.leb_spec p 1) as [H1|H1]; simpl.
    { split; [by intros ?%elem_of_nil|intros (_ & ? & _); lia]. }
    destruct (Z.leb_spec 1 (p - 1)) as [H2|H2]; simpl; [|lia].
    destruct (Z.leb_spec (p - 1) t) as [H3|H3]; simpl.
    + split; [intros ?; split_and!; (done || lia)|by intros (_ & _ & ?)].
    + split; [by intros ?%elem_of_nil|intros (_ & ? & _); lia].
Qed.

Lemma footer_buttons_fetch_iff_witness :
  let beyond := setPagination {| page := 5; limit := 100; total := 250;
                                 totalPages := 3 |} Samples.viewer0 in
  let q := {| q_accountId := "a1"; q_page := 3; q_limit := 100; q_status := None |} in
  Fetch q ∈ click_next Samples.viewer0
  ∧ previous_disabled beyond = false
  ∧ (∀ q', ¬ Fetch q' ∈ click_previous beyond).
Proof.
  intros beyond q. split_and!.
  - apply (footer_buttons_fetch_iff Samples.viewer0 q); [reflexivity|].
    split; [reflexivity|]. split; [simpl; lia|]. vm_compute. left.
  - reflexivity.
  - intros q' H. apply (footer_buttons_fetch_iff beyond q') in H; [|reflexivity].
    destruct H as (_ & H & _). simpl in H. lia.
Defined.

(** ** What a fetch leaves behind *)

(** X25.  [fetchLogs] replaces the loaded logs and the pagination only when
    the server answers with an ok status and [success] set, and then by
    what the server sent.  In every other case the logs and the pagination
    stay as they were; the failure toast is shown when the request failed,
    the body could not be parsed or the status was not ok, and nothing is
    shown when an ok answer has [success] unset.  Loading is over in every
    case, and without an account nothing happens at all. *)
Theorem fetch_replaces_only_on_success page answer st :
  let st' := (fetchLogs_settled page answer st).1 in
  let shown := (fetchLogs_settled page answer st).2 in
  (currentAccount st = None → st' = st ∧ shown = [])
  ∧ (∀ result, is_Some (currentAccount st) → answer = Answered true result →
       r_success result = true →
       logs st' = r_data result ∧ pagination st' = r_pagination result
       ∧ shown = fetchLogs page st)
  ∧ (∀ result, is_Some (currentAccount st) → answer = Answered true result →
       r_success result = false →
       logs st' = logs st ∧ pagination st' = pagination st
       ∧ shown = fetchLogs page st)
  ∧ (is_Some (currentAccount st) →
     (∀ result, answer ≠ Answered true result) →
     logs st' = logs st ∧ pagination st' = pagination st
     ∧ shown = (fetchLogs page st ++ [ToastError "Failed to refresh logs"])%list)
  ∧ (is_Some (currentAccount st) → isLoading st' = false)
  ∧ statusFilter st' = statusFilter st.
Proof.
  unfold fetchLogs_settled. cbv zeta. split_and!.
  - by intros ->.
  - intros result [a Ha] -> Hs. by rewrite Ha, Hs.
  - intros result [a Ha] -> Hs. by rewrite Ha, Hs.
  - intros [a Ha] Hne. rewrite Ha.
    destruct answer as [|ok|[|] result]; try done. by destruct (Hne result).
  - intros [a Ha]. rewrite Ha.
    destruct answer as [|ok|[|] result]; try done. by destruct (r_success result).
  - destruct (currentAccount st); [|done].
    destruct answer as [|ok|[|] result]; try done. by destruct (r_success result).
Qed.

Lemma fetch_replaces_only_on_success_witness :
  let result := {| r_success := true; r_data := [];
                   r_pagination := {| page := 1; limit := 50; total := 0;
                                      totalPages := 0 |};
                   r_error := None |} in
  logs (fetchLogs_settled 3 (Answered true result) Samples.viewer0).1 = []
  ∧ logs (fetchLogs_settled 3 (Answered false result) Samples.viewer0).1
    = Samples.page0
  ∧ logs (fetchLogs_settled 3 Rejected Samples.viewer0).1 = Samples.page0.
Proof.
  intros result.
  assert (is_Some (currentAccount Samples.viewer0)) as Ha by (by eexists).
  split_and!.
  - apply (fetch_replaces_only_on_success 3 (Answered true result) Samples.viewer0
             ) with (result := result); [exact Ha|reflexivity..].
  - apply (fetch_replaces_only_on_success 3 (Answered false result) Samples.viewer0);
      [exact Ha|]. intros r. discriminate.
  - apply (fetch_replaces_only_on_success 3 Rejected Samples.viewer0);
      [exact Ha|]. intros r. discriminate.
Defined.

(** X26.  The page size of a request is not a setting of the viewer: it is
    the [limit] of the pagination the server sent last.  After a fetch that
    succeeded, every later request (another page, a refresh, a change of
    filter) asks for the limit of that answer. *)
Theorem later_requests_use_server_limit p answer result st q :
  is_Some (currentAccount st) →
  answer = Answered true result →
  r_success result = true →
  let st' := (fetchLogs_settled p answer st).1 in
  (∀ p', Fetch q ∈ fetchLogs p' st' → q_limit q = limit (r_pagination result))
  ∧ (Fetch q ∈ click_refresh st' →
     q_limit q = limit (r_pagination result) ∧ q_page q = page (r_pagination result))
  ∧ (∀ v, Fetch q ∈ on_change (setStatusFilter v st') →
     q_limit q = limit (r_pagination result) ∧ q_page q = 1%Z).
Proof.
  intros [a Ha] -> Hs. unfold fetchLogs_settled. rewrite Ha, Hs. cbv zeta. simpl.
  split_and!.
  - intros p' (? & _ & ->)%elem_of_fetchLogs. done.
  - unfold click_refresh. simpl. intros (? & _ & ->)%elem_of_fetchLogs. done.
  - intros v. unfold on_change. simpl. rewrite Ha.
    intros (? & _ & ->)%elem_of_fetchLogs. done.
Qed.

Lemma later_requests_use_server_limit_witness :
  let result := {| r_success := true; r_data := Samples.page0;
                   r_pagination := {| page := 2; limit := 50; total := 120;
                                      totalPages := 3 |};
                   r_error := None |} in
  let st' := (fetchLogs_settled 2 (Answered true result) Samples.viewer0).1 in
  let q := {| q_accountId := "a1"; q_page := 1; q_limit := 50;
              q_status := Some "failed" |} in
  Fetch q ∈ on_change (setStatusFilter "failed" st') ∧ q_limit q = 50%Z.
Proof.
  intros result st' q.
  assert (Fetch q ∈ on_change (setStatusFilter "failed" st')) as Hin
    by (vm_compute; left).
  split; [exact Hin|].
  destruct (later_requests_use_server_limit 2 (Answered true result) result
              Samples.viewer0 q) as (_ & _ & H).
  - by eexists.
  - reflexivity.
  - reflexivity.
  - apply (H "failed" Hin).
Defined.

(** ** The exported file *)

Lemma before_app c d rest :
  lacks c d = true → before c (d ++ String c rest) = d.
Proof.
  induction d as [|x d IH]; simpl.
  - intros _. change (before c (String c rest) = ""). simpl.
    by rewrite Ascii.eqb_refl.
  - intros [Hx Hd]%andb_true_iff. apply negb_true_iff in Hx.
    rewrite ?append_cons. simpl. by rewrite Hx, IH.
Qed.

(** X28.  The exported file is named after the calendar date: for an ISO
    timestamp made of a date, the letter T and a time, the file name is
    "analytics-export-", the date, ".txt"; and the success toast reports
    the number of loaded logs. *)
Theorem export_is_dated date time st :
  lacks "T" date = true →
  logs st ≠ [] →
  ∃ content,
    handleExport (date ++ String "T" time) st
    = [Download ("analytics-export-" ++ date ++ ".txt") "text/plain" content;
       ToastSuccess ("Exported " ++ pretty (length (logs st)) ++ " emails")].
Proof.
  intros Hd Hne. unfold handleExport.
  destruct (logs st) as [|l rest]; [done|]. simpl length. cbn [Nat.eqb].
  rewrite (before_app _ _ _ Hd). eauto.
Qed.

Lemma export_is_dated_witness :
  ∃ content,
    handleExport "2024-06-01T12:00:00.000Z" Samples.viewer0
    = [Download "analytics-export-2024-06-01.txt" "text/plain" content;
       ToastSuccess "Exported 3 emails"].
Proof.
  apply (export_is_dated "2024-06-01" "12:00:00.000Z" Samples.viewer0).
  - reflexivity.
  - discriminate.
Defined.

End LogViewerMore.
